(** * One-Click Extract: content detection, Markdown rendering and
      navigation harvesting

    A shallow embedding of the content script of the extension
    (extractor.ts and its later revision with the richer harvesting
    cascade) together with the properties its design document states.

    Strings are byte strings; the whitespace class of the regular
    expression [\s] and of [String.prototype.trim] is modelled by its ASCII
    members.  Tag names are kept in lower case (what the source obtains
    with [el.tagName.toLowerCase()]). *)

From Stdlib Require Import Ascii String List Arith Lia Bool.
From Stdlib Require Import Numbers.DecimalString.
From stdpp Require Import base option list strings gmap.

Local Open Scope string_scope.
Local Open Scope list_scope.

(** ** JavaScript string primitives used by the source *)

Module Js.

Definition isSpace (c : ascii) : bool :=
  match nat_of_ascii c with
  | 9 | 10 | 11 | 12 | 13 | 32 => true
  | _ => false
  end.

Definition lowerChar (c : ascii) : ascii :=
  let n := nat_of_ascii c in
  if ((65 <=? n) && (n <=? 90))%nat then ascii_of_nat (n + 32) else c.

Fixpoint toLowerCase (s : string) : string :=
  match s with
  | EmptyString => EmptyString
  | String c r => String (lowerChar c) (toLowerCase r)
  end.

Fixpoint trimStart (s : string) : string :=
  match s with
  | EmptyString => EmptyString
  | String c r => if isSpace c then trimStart r else s
  end.

(** [trimEnd] drops the trailing run of white space: a character is kept
    when something that is not white space follows it or it is none itself. *)
Fixpoint trimEnd (s : string) : string :=
  match s with
  | EmptyString => EmptyString
  | String c r =>
      match trimEnd r with
      | EmptyString => if isSpace c then EmptyString else String c EmptyString
      | r' => String c r'
      end
  end.

Definition trim (s : string) : string := trimEnd (trimStart s).

(** [s.startsWith(p)] *)
Fixpoint startsWith (p s : string) : bool :=
  match p, s with
  | EmptyString, _ => true
  | String a p', String b s' => if Ascii.eqb a b then startsWith p' s' else false
  | String _ _, EmptyString => false
  end.

(** [s.includes(p)] *)
Fixpoint includes (p s : string) : bool :=
  startsWith p s ||
  match s with
  | EmptyString => false
  | String _ r => includes p r
  end.

Fixpoint dropChars (n : nat) (s : string) : string :=
  match n, s with
  | O, _ => s
  | S n', String _ r => dropChars n' r
  | S _, EmptyString => EmptyString
  end.

(** [s.endsWith(p)] *)
Definition endsWith (p s : string) : bool :=
  (String.length p <=? String.length s)%nat &&
  String.eqb (dropChars (String.length s - String.length p) s) p.

(** [s.replace(p, r)] with a string pattern: the first occurrence only. *)
Fixpoint replaceFirst (p r s : string) : string :=
  if startsWith p s then r ++ dropChars (String.length p) s
  else match s with
       | EmptyString => EmptyString
       | String c t => String c (replaceFirst p r t)
       end.

(** [s.slice(0, -1)] *)
Fixpoint dropLast (s : string) : string :=
  match s with
  | EmptyString => EmptyString
  | String c EmptyString => EmptyString
  | String c r => String c (dropLast r)
  end.

(** [s.split(c)] with a one-character separator: empty pieces are kept. *)
Fixpoint splitGo (sep : ascii) (cur : string) (s : string) : list string :=
  match s with
  | EmptyString => [cur]
  | String c r =>
      if Ascii.eqb c sep then cur :: splitGo sep EmptyString r
      else splitGo sep (cur ++ String c EmptyString) r
  end.

Definition split (sep : ascii) (s : string) : list string :=
  splitGo sep EmptyString s.

(** [s.split(/\s+/)]: pieces between maximal runs of white space; [inRun]
    says that the scan is inside a run whose separator was already used. *)
Fixpoint splitWsGo (cur : string) (inRun : bool) (s : string) : list string :=
  match s with
  | EmptyString => [cur]
  | String c r =>
      if isSpace c then
        if inRun then splitWsGo cur true r
        else cur :: splitWsGo EmptyString true r
      else splitWsGo (cur ++ String c EmptyString) false r
  end.

Definition splitWs (s : string) : list string := splitWsGo EmptyString false s.

(** [s.replace(/\s+/g, ' ')] *)
Fixpoint collapseWsGo (inRun : bool) (s : string) : string :=
  match s with
  | EmptyString => EmptyString
  | String c r =>
      if isSpace c then
        if inRun then collapseWsGo true r
        else String " "%char (collapseWsGo true r)
      else String c (collapseWsGo false r)
  end.

Definition collapseWs (s : string) : string := collapseWsGo false s.

(** [xs.join(sep)] *)
Fixpoint join (sep : string) (xs : list string) : string :=
  match xs with
  | [] => EmptyString
  | [x] => x
  | x :: r => x ++ sep ++ join sep r
  end.

Definition joinAll (xs : list string) : string := join EmptyString xs.

(** Decimal rendering of a number, as in a template literal. *)
Definition ofNat (n : nat) : string := NilEmpty.string_of_uint (Nat.to_uint n).

(** The new-line character. *)
Definition nl : string := String (ascii_of_nat 10) EmptyString.

(** [s.substring(0, n)] *)
Fixpoint take (n : nat) (s : string) : string :=
  match n, s with
  | O, _ => EmptyString
  | S k, String c r => String c (take k r)
  | S _, EmptyString => EmptyString
  end.

(** [s.replace(/[^...]/g, '')] for a class of kept characters. *)
Fixpoint keepChars (keep : ascii -> bool) (s : string) : string :=
  match s with
  | EmptyString => EmptyString
  | String c r => if keep c then String c (keepChars keep r) else keepChars keep r
  end.

(** The class [a-z0-9]. *)
Definition isLowerAlnum (c : ascii) : bool :=
  let n := nat_of_ascii c in
  (((97 <=? n) && (n <=? 122)) || ((48 <=? n) && (n <=? 57)))%nat.

(** [s.replace(/^p/, '')] for a literal [p]. *)
Definition dropPrefix (p s : string) : string :=
  if startsWith p s then dropChars (String.length p) s else s.

End Js.

(** ** The document tree

    Every node carries the identity of the object that represents it
    ([nid]); two nodes with equal content and different identities are
    different objects.  A node that is neither text nor an element is a
    comment, a processing instruction or a CDATA section. *)

Inductive otherKind := CommentNode | ProcessingInstructionNode | CDataSectionNode.

Definition attrs := list (string * string).

#[local] Unset Elimination Schemes.
Inductive node :=
| Text (nid : nat) (data : string)
| Other (nid : nat) (kind : otherKind) (data : string)
| Element (nid : nat) (tag : string) (atts : attrs) (children : list node).
#[local] Set Elimination Schemes.

Definition nodeId (n : node) : nat :=
  match n with
  | Text i _ | Other i _ _ | Element i _ _ _ => i
  end.

Definition isElement (n : node) : bool :=
  match n with Element _ _ _ _ => true | _ => false end.


Definition tagOf (n : node) : string :=
  match n with Element _ t _ _ => t | _ => EmptyString end.

Definition attsOf (n : node) : attrs :=
  match n with Element _ _ a _ => a | _ => [] end.

Definition childNodes (n : node) : list node :=
  match n with Element _ _ _ cs => cs | _ => [] end.

(** [el.getAttribute(name)]; [None] is [null]. *)
Fixpoint getAttribute (name : string) (a : attrs) : option string :=
  match a with
  | [] => None
  | (k, v) :: r => if String.eqb k name then Some v else getAttribute name r
  end.

(** [el.className] and [el.id] reflect the attribute, empty when absent. *)
Definition className (a : attrs) : string := default EmptyString (getAttribute "class" a).
Definition idOf (a : attrs) : string := default EmptyString (getAttribute "id" a).

(** [node.textContent] of an element: the data of the text descendants in
    document order (a CDATA section is text, a comment is not). *)
Fixpoint textContent (n : node) : string :=
  match n with
  | Text _ d => d
  | Other _ CDataSectionNode d => d
  | Other _ _ _ => EmptyString
  | Element _ _ _ cs => Js.joinAll (map textContent cs)
  end.

(** *** Selectors

    The selectors of the source are lists (comma) of chains of compound
    selectors joined by the descendant combinator. *)

Inductive simple :=
| STag (t : string)
| SClass (c : string)
| SId (i : string)
| SAttr (a : string)
| SAttrEq (a v : string)
| SAttrSub (a v : string).

Definition compound := list simple.
Definition complex := list compound.
Definition selector := list complex.

(** What a selector sees of an element: its tag and its attributes. *)
Definition einfo : Type := string * attrs.

Definition hasClass (c : string) (a : attrs) : bool :=
  existsb (String.eqb c) (Js.splitWs (className a)).

Definition matchSimple (e : einfo) (s : simple) : bool :=
  match s with
  | STag t => String.eqb t (fst e)
  | SClass c => hasClass c (snd e)
  | SId i => match getAttribute "id" (snd e) with
             | Some v => String.eqb v i
             | None => false
             end
  | SAttr a => match getAttribute a (snd e) with Some _ => true | None => false end
  | SAttrEq a v => match getAttribute a (snd e) with
                   | Some w => String.eqb w v
                   | None => false
                   end
  | SAttrSub a v => match getAttribute a (snd e) with
                    | Some w => negb (String.eqb v EmptyString) && Js.includes v w
                    | None => false
                    end
  end.

Definition matchCompound (c : compound) (e : einfo) : bool :=
  forallb (matchSimple e) c.

(** [matchAncestors cs anc]: the compounds [cs] (nearest first) are matched
    by a chain of ancestors, [anc] listing them from the parent outwards. *)
Fixpoint matchAncestors (cs : list compound) (anc : list einfo) : bool :=
  match cs with
  | [] => true
  | c :: cs' =>
      (fix find (anc : list einfo) : bool :=
         match anc with
         | [] => false
         | a :: anc' => if matchCompound c a then matchAncestors cs' anc' else find anc'
         end) anc
  end.

Definition matchComplex (anc : list einfo) (e : einfo) (cx : complex) : bool :=
  match rev cx with
  | [] => false
  | subject :: outer => matchCompound subject e && matchAncestors outer anc
  end.

Definition matchSelector (sel : selector) (anc : list einfo) (e : einfo) : bool :=
  existsb (matchComplex anc e) sel.

(** An element together with the chain of its ancestors (parent first). *)
Definition located : Type := list einfo * node.

(** Matches among [n] and its descendants, in document order. *)
Fixpoint selectFrom (sel : selector) (anc : list einfo) (n : node) : list located :=
  match n with
  | Element _ t a cs =>
      (if matchSelector sel anc (t, a) then [(anc, n)] else [])
      ++ flat_map (selectFrom sel ((t, a) :: anc)) cs
  | _ => []
  end.

(** [el.querySelectorAll(sel)]: the descendants of [el] that match. *)
Definition querySelectorAllLoc (sel : selector) (el : located) : list located :=
  match snd el with
  | Element _ t a cs => flat_map (selectFrom sel ((t, a) :: fst el)) cs
  | _ => []
  end.

Definition querySelectorAll (sel : selector) (el : located) : list node :=
  map snd (querySelectorAllLoc sel el).

(** [el.querySelector(sel)] *)
Definition querySelector (sel : selector) (el : located) : option node :=
  head (querySelectorAll sel el).

(** The selectors that are a list of tag names. *)
Definition tags (ts : list string) : selector := map (fun t => [[STag t]]) ts.
Definition cls (c : string) : selector := [[[SClass c]]].

(** Selecting by tag needs no ancestors. *)
Definition atTop (n : node) : located := ([], n).

(** *** Documents

    An HTML document: the root element with its head and its body. *)

Record document := {
  html_id : nat;
  html_atts : attrs;
  head_node : node;
  body_id : nat;
  body_atts : attrs;
  body_children : list node
}.

Definition body (d : document) : node :=
  Element (body_id d) "body" (body_atts d) (body_children d).

Definition documentElement (d : document) : node :=
  Element (html_id d) "html" (html_atts d) [head_node d; body d].

(** [document.body] with its ancestors. *)
Definition bodyLoc (d : document) : located := ([("html", html_atts d)], body d).

(** [document.querySelectorAll(sel)] and [document.querySelector(sel)] *)
Definition docQuerySelectorAll (sel : selector) (d : document) : list located :=
  selectFrom sel [] (documentElement d).

Definition docQuerySelector (sel : selector) (d : document) : option located :=
  head (docQuerySelectorAll sel d).

(** ** Content region selection (extractor.ts, getMainContent) *)

Definition mainSelectors : list selector :=
  [ tags ["main"]; tags ["article"]; [[[SAttrEq "role" "main"]]];
    cls "main-content"; cls "content"; [[[SId "content"]]];
    cls "post-content"; cls "article-content"; cls "documentation";
    cls "docs-content"; cls "markdown-body"; cls "prose" ].

Definition headingSel : selector := tags ["h1"; "h2"; "h3"; "h4"; "h5"; "h6"].

Definition wordCount (el : node) : nat :=
  length (Js.splitWs (Js.trim (textContent el))).

Definition hasSubstantialContent (el : node) : bool := (50 <? wordCount el)%nat.

Definition skipTags : list string := ["nav"; "header"; "footer"; "aside"].
Definition skipClasses : list string :=
  ["nav"; "navigation"; "sidebar"; "footer"; "header"; "menu"; "toc";
   "table-of-contents"; "ad"; "advertisement"; "cookie"; "popup"; "modal"].
Definition skipRoles : list string :=
  ["navigation"; "banner"; "contentinfo"; "complementary"].

Definition inList (x : string) (l : list string) : bool := existsb (String.eqb x) l.

Definition isSkippableElement (el : node) : bool :=
  if inList (tagOf el) skipTags then true
  else if match getAttribute "role" (attsOf el) with
          | Some role => negb (String.eqb role EmptyString) && inList role skipRoles
          | None => false
          end then true
  else
    let cn := Js.toLowerCase (className (attsOf el)) in
    let i := Js.toLowerCase (idOf (attsOf el)) in
    existsb (fun skip => Js.includes skip cn || Js.includes skip i) skipClasses.

Definition score (el : node) : nat :=
  wordCount el
  + length (querySelectorAll (tags ["p"]) (atTop el)) * 10
  + length (querySelectorAll headingSel (atTop el)) * 20.

(** The body of the [forEach] of findLargestContentArea, on the pair
    [(bestElement, maxScore)]. *)
Definition largestStep (st : option located * nat) (el : located) : option located * nat :=
  if isSkippableElement (snd el) then st
  else if (snd st <? score (snd el))%nat then (Some el, score (snd el))
  else st.

Definition findLargestContentArea (d : document) : option located :=
  fst (fold_left largestStep (docQuerySelectorAll (tags ["div"; "section"]) d) (None, 0)).

(** The [for] loop over the selectors, returning at the first hit. *)
Fixpoint firstSubstantial (d : document) (sels : list selector) : option located :=
  match sels with
  | [] => None
  | sel :: rest =>
      match docQuerySelector sel d with
      | Some el => if hasSubstantialContent (snd el) then Some el
                   else firstSubstantial d rest
      | None => firstSubstantial d rest
      end
  end.

Definition getMainContent (d : document) : located :=
  match firstSubstantial d mainSelectors with
  | Some el => el
  | None => match findLargestContentArea d with
            | Some el => el
            | None => bodyLoc d
            end
  end.

(** ** Heading and code-block collection *)

Record Heading := { level : nat; text : string; id : option string }.
Record CodeBlock := { language : string; code : string }.

(** [parseInt(el.tagName.charAt(1))] on the tag of a heading. *)
Definition parseLevel (tag : string) : nat :=
  match tag with
  | String _ (String c _) => nat_of_ascii c - 48
  | _ => 0
  end.

(** [s || undefined] *)
Definition orUndefined (s : string) : option string :=
  if String.eqb s EmptyString then None else Some s.

Definition headingOf (el : node) : Heading :=
  {| level := parseLevel (tagOf el);
     text := Js.trim (textContent el);
     id := orUndefined (idOf (attsOf el)) |}.

Definition extractHeadings (container : located) : list Heading :=
  map headingOf (querySelectorAll headingSel container).

Definition languageNames : list string :=
  ["javascript"; "typescript"; "python"; "ruby"; "go"; "rust"; "java"; "cpp";
   "c"; "bash"; "shell"; "json"; "yaml"; "html"; "css"; "sql"; "kotlin"; "swift"].

(** The [for] loop of extractCodeBlocks over the class tokens: the first
    token that passes one of the three tests ends the loop. *)
Fixpoint languageOfClasses (classes : list string) : string :=
  match classes with
  | [] => EmptyString
  | c :: rest =>
      if Js.startsWith "language-" c then Js.replaceFirst "language-" EmptyString c
      else if Js.startsWith "lang-" c then Js.replaceFirst "lang-" EmptyString c
      else if inList (Js.toLowerCase c) languageNames then Js.toLowerCase c
      else languageOfClasses rest
  end.

(** The language hint of extractCodeBlocks for a class attribute. *)
Definition languageHint (classAttr : string) : string :=
  languageOfClasses (Js.split " " classAttr).

(** detectLanguageFromElement: the loop of the renderer, prefixes only. *)
Fixpoint detectLanguageOfClasses (classes : list string) : string :=
  match classes with
  | [] => EmptyString
  | c :: rest =>
      if Js.startsWith "language-" c then Js.replaceFirst "language-" EmptyString c
      else if Js.startsWith "lang-" c then Js.replaceFirst "lang-" EmptyString c
      else detectLanguageOfClasses rest
  end.

Definition detectLanguageFromElement (el : node) : string :=
  detectLanguageOfClasses (Js.split " " (className (attsOf el))).

Definition preCodeSel : selector := [ [[STag "pre"]; [STag "code"]]; [[STag "pre"]] ].

(** [el.tagName === 'CODE' ? el : el.querySelector('code') || el] *)
Definition codeElementOf (el : node) : node :=
  if String.eqb (tagOf el) "code" then el
  else default el (querySelector (tags ["code"]) (atTop el)).

Definition codeBlockOf (el : node) : list CodeBlock :=
  let codeEl := codeElementOf el in
  let c := Js.trim (textContent codeEl) in
  if (0 <? String.length c)%nat
  then [{| language := languageHint (className (attsOf codeEl)); code := c |}]
  else [].

Definition extractCodeBlocks (container : located) : list CodeBlock :=
  flat_map codeBlockOf (querySelectorAll preCodeSel container).

(** ** Markdown rendering (extractor.ts, processNode and its helpers) *)

Definition nl2 : string := Js.nl +:+ Js.nl.

Definition rowLine (cellTexts : list string) : string :=
  "| " +:+ Js.join " | " cellTexts +:+ " |".

Definition sepLine (cellTexts : list string) : string :=
  "| " +:+ Js.join " | " (map (fun _ => "---") cellTexts) +:+ " |".

Definition cellTextsOf (row : node) : list string :=
  map (fun cell => Js.trim (textContent cell))
      (querySelectorAll (tags ["th"; "td"]) (atTop row)).

Definition hasHeaderCell (row : node) : bool :=
  match querySelector (tags ["th"]) (atTop row) with Some _ => true | None => false end.

(** The [forEach] over the rows of convertTableToMarkdown; [result] and
    [headerProcessed] are the two variables the callback updates. *)
Fixpoint tableLoop (rows : list node) (rowIndex : nat)
    (headerProcessed : bool) (result : list string) : list string :=
  match rows with
  | [] => result
  | row :: rest =>
      let cellTexts := cellTextsOf row in
      let result1 := result ++ [rowLine cellTexts] in
      if negb headerProcessed && (hasHeaderCell row || (rowIndex =? 0)%nat)
      then tableLoop rest (S rowIndex) true (result1 ++ [sepLine cellTexts])
      else tableLoop rest (S rowIndex) headerProcessed result1
  end.

Definition tableLines (table : node) : list string :=
  tableLoop (querySelectorAll (tags ["tr"]) (atTop table)) 0 false [].

Definition convertTableToMarkdown (table : node) : string :=
  match querySelectorAll (tags ["tr"]) (atTop table) with
  | [] => EmptyString
  | _ => nl2 +:+ Js.join Js.nl (tableLines table) +:+ nl2
  end.

Fixpoint repeatString (s : string) (n : nat) : string :=
  match n with
  | O => EmptyString
  | S k => s +:+ repeatString s k
  end.

(** All results, or the first failure. *)
Fixpoint sequence {A : Type} (xs : list (option A)) : option (list A) :=
  match xs with
  | [] => Some []
  | None :: _ => None
  | Some x :: r => match sequence r with
                   | Some r' => Some (x :: r')
                   | None => None
                   end
  end.

Fixpoint numberFrom {A : Type} (i : nat) (xs : list A) : list (nat * A) :=
  match xs with
  | [] => []
  | x :: r => (i, x) :: numberFrom (S i) r
  end.

Definition isHidden (a : attrs) : bool :=
  match getAttribute "hidden" a with
  | Some _ => true
  | None => match getAttribute "aria-hidden" a with
            | Some v => String.eqb v "true"
            | None => false
            end
  end.

Definition isLi (n : node) : bool := isElement n && String.eqb (tagOf n) "li".

Section Rendering.

(** [new URL(href, window.location.href).href]; [None] is the [TypeError]
    the constructor throws on an address it cannot parse. *)
Variable resolveUrl : string -> option string.

(** The [switch] of processNode.  [children] is the joined rendering of the
    child nodes, [items] the renderings of the [li] children (used by the
    two list tags only), [parent] the tag of the parent element. *)
Definition renderElement (parent : option string) (el : node)
    (children : string) (items : list string) : option string :=
  let tag := tagOf el in
  let a := attsOf el in
  if inList tag ["h1"; "h2"; "h3"; "h4"; "h5"; "h6"] then
    Some (nl2 +:+ repeatString "#" (parseLevel tag) +:+ " " +:+ Js.trim children +:+ nl2)
  else if String.eqb tag "p" then Some (nl2 +:+ Js.trim children +:+ nl2)
  else if String.eqb tag "br" then Some Js.nl
  else if inList tag ["strong"; "b"] then Some ("**" +:+ Js.trim children +:+ "**")
  else if inList tag ["em"; "i"] then Some ("*" +:+ Js.trim children +:+ "*")
  else if String.eqb tag "code" then
    match parent with
    | Some "pre" => Some children
    | _ => Some ("`" +:+ Js.trim children +:+ "`")
    end
  else if String.eqb tag "pre" then
    let codeEl := default el (querySelector (tags ["code"]) (atTop el)) in
    let lang := detectLanguageFromElement codeEl in
    let c := Js.trim (textContent codeEl) in
    Some (nl2 +:+ "```" +:+ lang +:+ Js.nl +:+ c +:+ Js.nl +:+ "```" +:+ nl2)
  else if String.eqb tag "a" then
    let t := Js.trim children in
    match getAttribute "href" a with
    | Some href =>
        if negb (String.eqb href EmptyString) && negb (String.eqb t EmptyString) then
          match resolveUrl href with
          | Some absoluteUrl => Some ("[" +:+ t +:+ "](" +:+ absoluteUrl +:+ ")")
          | None => None
          end
        else Some t
    | None => Some t
    end
  else if inList tag ["ul"; "ol"] then
    let line (it : nat * string) :=
      (if String.eqb tag "ol" then Js.ofNat (fst it + 1) +:+ ". " else "- ")
      +:+ Js.trim (snd it) in
    Some (nl2 +:+ Js.join Js.nl (map line (numberFrom 0 items)) +:+ nl2)
  else if String.eqb tag "li" then Some children
  else if String.eqb tag "blockquote" then
    let lines := map (fun l => "> " +:+ l) (Js.split (ascii_of_nat 10) (Js.trim children)) in
    Some (nl2 +:+ Js.join Js.nl lines +:+ nl2)
  else if String.eqb tag "table" then Some (convertTableToMarkdown el)
  else if String.eqb tag "img" then
    let alt := match getAttribute "alt" a with
               | Some v => if String.eqb v EmptyString then "image" else v
               | None => "image"
               end in
    match getAttribute "src" a with
    | Some src =>
        if String.eqb src EmptyString then Some EmptyString
        else match resolveUrl src with
             | Some absoluteSrc => Some ("![" +:+ alt +:+ "](" +:+ absoluteSrc +:+ ")")
             | None => None
             end
    | None => Some EmptyString
    end
  else if String.eqb tag "hr" then Some (nl2 +:+ "---" +:+ nl2)
  else if inList tag ["script"; "style"; "noscript"; "svg"] then Some EmptyString
  else Some children.

(** processNode.  The children are rendered before the [switch] is
    entered, whatever the tag; a failure in one of them fails the call. *)
Fixpoint processNode (parent : option string) (n : node) : option string :=
  match n with
  | Text _ d => Some (Js.collapseWs d)
  | Other _ _ _ => Some EmptyString
  | Element _ tag a cs =>
      if isHidden a then Some EmptyString
      else
        match sequence (map (processNode (Some tag)) cs) with
        | None => None
        | Some parts =>
            match sequence (flat_map (fun c => if isLi c
                                               then [processNode (Some tag) c]
                                               else []) cs) with
            | None => None
            | Some items => renderElement parent n (Js.joinAll parts) items
            end
        end
  end.

End Rendering.

(** ** Cloning and removal: the live trees

    [el.remove()] changes the tree the element hangs in, wherever that tree
    is.  The store lists the trees that are alive when the renderer is
    called; an element is designated by its identity. *)

Definition store := list node.

Fixpoint maxId (n : node) : nat :=
  match n with
  | Text i _ | Other i _ _ => i
  | Element i _ _ cs => Nat.max i (list_max (map maxId cs))
  end.

Definition maxIdStore (st : store) : nat := list_max (map maxId st).

(** [node.cloneNode(true)]: the same tree made of new objects; the
    identities of the copies start at [base], above every live one. *)
Fixpoint cloneNode (base : nat) (n : node) : node :=
  match n with
  | Text i d => Text (base + i) d
  | Other i k d => Other (base + i) k d
  | Element i t a cs => Element (base + i) t a (map (cloneNode base) cs)
  end.

(** The tree [n] once the object [i] has left its parent.  The root has no
    parent: removing it changes nothing.  The detached subtree is no longer
    referenced and is dropped. *)
Fixpoint removeById (i : nat) (n : node) : node :=
  match n with
  | Element j t a cs =>
      Element j t a
        (flat_map (fun c => if (nodeId c =? i)%nat then [] else [removeById i c]) cs)
  | _ => n
  end.

(** [el.remove()] on the live trees and on the renderer's own clone. *)
Definition removeNode (st : store * node) (el : node) : store * node :=
  (map (removeById (nodeId el)) (fst st), removeById (nodeId el) (snd st)).

Definition removeSelectors : list selector :=
  [ tags ["nav"]; tags ["script"]; tags ["style"]; tags ["noscript"];
    tags ["svg"]; tags ["iframe"]; cls "ad"; cls "advertisement";
    cls "cookie-banner" ].

(** [clone.querySelectorAll(sel).forEach(el => el.remove())] *)
Definition removeMatching (st : store * node) (sel : selector) : store * node :=
  fold_left removeNode (querySelectorAll sel (atTop (snd st))) st.

(** The preprocessing of convertToMarkdown: clone, then remove. *)
Definition cloneAndPrune (st : store) (container : node) : store * node :=
  let base := S (Nat.max (maxIdStore st) (maxId container)) in
  fold_left removeMatching removeSelectors (st, cloneNode base container).

Section Extraction.

Variable resolveUrl : string -> option string.

(** convertToMarkdown: the store after the call and the Markdown text
    ([None] when a [new URL] inside processNode throws). *)
Definition convertToMarkdown (st : store) (container : node) : store * option string :=
  let '(st', clone) := cloneAndPrune st container in
  (st', processNode resolveUrl None clone).

Record ExtractedContent := {
  title : string;
  url : string;
  extractedAt : string;
  content : string;
  headings : list Heading;
  codeBlocks : list CodeBlock
}.

(** getPageTitle; [documentTitle] is [document.title]. *)
Definition getPageTitle (documentTitle : string) (d : document) : string :=
  let og := match docQuerySelector [[[STag "meta"; SAttrEq "property" "og:title"]]] d with
            | Some m => getAttribute "content" (attsOf (snd m))
            | None => None
            end in
  let fromH1 := match docQuerySelector (tags ["h1"]) d with
                 | Some h => let t := Js.trim (textContent (snd h)) in
                             if String.eqb t EmptyString then documentTitle else t
                 | None => documentTitle
                 end in
  match og with
  | Some t => if String.eqb t EmptyString then fromH1 else t
  | None => fromH1
  end.

(** extractPage, on the store that holds the document; [None] is a
    rejected promise.  [locationHref] is [window.location.href] and [now]
    the time stamp. *)
Definition extractPage (documentTitle locationHref now : string) (d : document)
    : store * option ExtractedContent :=
  let t := getPageTitle documentTitle d in
  let mainContent := getMainContent d in
  let hs := extractHeadings mainContent in
  let cbs := extractCodeBlocks mainContent in
  let '(st', md) := convertToMarkdown [documentElement d] (snd mainContent) in
  (st', match md with
        | Some c => Some {| title := t; url := locationHref; extractedAt := now;
                            content := c; headings := hs; codeBlocks := cbs |}
        | None => None
        end).

End Extraction.

(** ** The copy of the renderer in the MCP server (mcp-server/src/index.ts)

    The function evaluated in the page has its own processNode, nested in
    convertToMarkdown: no [table] and no [img] case, the language of a
    [pre] taken from the first [language-] token only, and the text cleaned
    of runs of new-lines at the end. *)

Module Mcp.

(** [s.replace(/\n{3,}/g, '\n\n')]; [run] counts the new-lines of the current
    run, of which two at most are kept. *)
Fixpoint collapseNewlinesGo (run : nat) (s : string) : string :=
  match s with
  | EmptyString => EmptyString
  | String c r =>
      if Ascii.eqb c (ascii_of_nat 10) then
        if (run <? 2)%nat then String c (collapseNewlinesGo (S run) r)
        else collapseNewlinesGo run r
      else String c (collapseNewlinesGo 0 r)
  end.

Definition collapseNewlines (s : string) : string := collapseNewlinesGo 0 s.

(** [classes.find(c => c.startsWith('language-'))?.replace('language-', '') || ''] *)
Definition languageOfPre (codeEl : node) : string :=
  match List.find (Js.startsWith "language-") (Js.split " " (className (attsOf codeEl))) with
  | Some c => Js.replaceFirst "language-" EmptyString c
  | None => EmptyString
  end.

Section Rendering.

Variable resolveUrl : string -> option string.

Definition renderElement (parent : option string) (el : node)
    (children : string) (items : list string) : option string :=
  let tag := tagOf el in
  let a := attsOf el in
  if inList tag ["h1"; "h2"; "h3"; "h4"; "h5"; "h6"] then
    Some (nl2 +:+ repeatString "#" (parseLevel tag) +:+ " " +:+ Js.trim children +:+ nl2)
  else if String.eqb tag "p" then Some (nl2 +:+ Js.trim children +:+ nl2)
  else if String.eqb tag "br" then Some Js.nl
  else if inList tag ["strong"; "b"] then Some ("**" +:+ Js.trim children +:+ "**")
  else if inList tag ["em"; "i"] then Some ("*" +:+ Js.trim children +:+ "*")
  else if String.eqb tag "code" then
    match parent with
    | Some "pre" => Some children
    | _ => Some ("`" +:+ Js.trim children +:+ "`")
    end
  else if String.eqb tag "pre" then
    let codeEl := default el (querySelector (tags ["code"]) (atTop el)) in
    let lang := languageOfPre codeEl in
    let c := Js.trim (textContent codeEl) in
    Some (nl2 +:+ "```" +:+ lang +:+ Js.nl +:+ c +:+ Js.nl +:+ "```" +:+ nl2)
  else if String.eqb tag "a" then
    let t := Js.trim children in
    match getAttribute "href" a with
    | Some href =>
        if negb (String.eqb href EmptyString) && negb (String.eqb t EmptyString) then
          match resolveUrl href with
          | Some absoluteUrl => Some ("[" +:+ t +:+ "](" +:+ absoluteUrl +:+ ")")
          | None => None
          end
        else Some t
    | None => Some t
    end
  else if inList tag ["ul"; "ol"] then
    let line (it : nat * string) :=
      (if String.eqb tag "ol" then Js.ofNat (fst it + 1) +:+ ". " else "- ")
      +:+ Js.trim (snd it) in
    Some (nl2 +:+ Js.join Js.nl (map line (numberFrom 0 items)) +:+ nl2)
  else if String.eqb tag "li" then Some children
  else if String.eqb tag "blockquote" then
    let lines := map (fun l => "> " +:+ l) (Js.split (ascii_of_nat 10) (Js.trim children)) in
    Some (nl2 +:+ Js.join Js.nl lines +:+ nl2)
  else if String.eqb tag "hr" then Some (nl2 +:+ "---" +:+ nl2)
  else if inList tag ["script"; "style"; "noscript"; "svg"] then Some EmptyString
  else Some children.

Fixpoint processNode (parent : option string) (n : node) : option string :=
  match n with
  | Text _ d => Some (Js.collapseWs d)
  | Other _ _ _ => Some EmptyString
  | Element _ tag a cs =>
      if isHidden a then Some EmptyString
      else
        match sequence (map (processNode (Some tag)) cs) with
        | None => None
        | Some parts =>
            match sequence (flat_map (fun c => if isLi c
                                               then [processNode (Some tag) c]
                                               else []) cs) with
            | None => None
            | Some items => renderElement parent n (Js.joinAll parts) items
            end
        end
  end.

Definition convertToMarkdown (st : store) (container : node) : store * option string :=
  let '(st', clone) := cloneAndPrune st container in
  (st', match processNode None clone with
        | Some md => Some (Js.trim (collapseNewlines md))
        | None => None
        end).

End Rendering.

(** getMainContent of the MCP server: four more selectors, the density
    search written out in place (the same loop). *)
Definition selectors : list selector :=
  mainSelectors ++
  [ cls "theme-doc-markdown"; cls "vp-doc"; cls "md-content"; cls "document" ].

Definition getMainContent (d : document) : located :=
  match firstSubstantial d selectors with
  | Some el => el
  | None =>
      match fst (fold_left largestStep
                   (docQuerySelectorAll (tags ["div"; "section"]) d) (None, 0)) with
      | Some el => el
      | None => bodyLoc d
      end
  end.

Record Heading := { level : nat; text : string }.

Definition extractHeadings (container : located) : list Heading :=
  map (fun el => {| level := parseLevel (tagOf el);
                    text := Js.trim (textContent el) |})
      (querySelectorAll headingSel container).

(** extractCodeBlocks of the MCP server: the loop over the class tokens
    tests the two prefixes only. *)
Definition codeBlockOf (el : node) : list CodeBlock :=
  let codeEl := codeElementOf el in
  let c := Js.trim (textContent codeEl) in
  if (0 <? String.length c)%nat
  then [{| language := detectLanguageOfClasses (Js.split " " (className (attsOf codeEl)));
           code := c |}]
  else [].

Definition extractCodeBlocks (container : located) : list CodeBlock :=
  flat_map codeBlockOf (querySelectorAll preCodeSel container).

End Mcp.

(** ** Navigation harvesting (the revision with the strategy cascade) *)

Module Harvester.

(** *** Addresses

    The class [URL] of the platform, as far as normalizeUrl U uses it: the
    constructor, which throws a [TypeError] on an address it cannot parse
    ([None]), the getter and the setter of [pathname], the setter of
    [hash], and [toString].  The class is not code of the repository; the
    harvester is modelled over any class. *)

Record UrlClass := {
  URL : Type;
  newURL : string -> option URL;
  pathname : URL -> string;
  setPathname : URL -> string -> URL;
  setHash : URL -> string -> URL;
  toString : URL -> string
}.

(** normalizeUrl: the fragment is cleared and a final slash of a path
    longer than one character is cut off; the input comes back when the
    constructor throws. *)
Definition normalizeUrl (U : UrlClass) (url : string) : string :=
  match newURL U url with
  | Some parsed =>
      let parsed := setHash U parsed EmptyString in
      let p := pathname U parsed in
      let p' := if Js.endsWith "/" p && (1 <? String.length p)%nat
                then Js.dropLast p else p in
      toString U (setPathname U parsed p')
  | None => url
  end.

Record DetectedSection := {
  title : string;
  url : string;
  isCurrentPage : bool
}.

Definition skipPatterns : list string :=
  ["header"; "footer"; "top-nav"; "main-nav"; "navbar"; "footer-nav"].

Definition isSkippableNav (el : located) : bool :=
  let a := attsOf (snd el) in
  let cn := Js.toLowerCase (className a) in
  let i := Js.toLowerCase (idOf a) in
  if match getAttribute "role" a with
     | Some r => String.eqb r "banner" || String.eqb r "contentinfo"
     | None => false
     end then true
  else if existsb (fun pat => Js.includes pat cn || Js.includes pat i) skipPatterns then true
  else match fst el with
       | (parentTag, _) :: _ => String.eqb parentTag "header" || String.eqb parentTag "footer"
       | [] => false
       end.

Definition skippedExtensions : list string :=
  [".pdf"; ".zip"; ".tar"; ".gz"; ".exe"; ".dmg"; ".pkg"].

(** [href.match(/\.(pdf|zip|tar|gz|exe|dmg|pkg)$/i)] *)
Definition isDownload (href : string) : bool :=
  existsb (fun e => Js.endsWith e (Js.toLowerCase href)) skippedExtensions.

Definition sidebarSelectors : list selector :=
  let under (c : compound) : selector := [[c; [STag "a"]]] in
  let inClass (c : string) : selector := under [SClass c] in
  [ [[[SClass "sidebar"]; [STag "nav"]; [STag "a"]]];
    inClass "docs-sidebar"; inClass "toc"; inClass "table-of-contents";
    under [STag "nav"; SClass "docs"];
    [[[SAttrSub "class" "sidebar"]; [STag "nav"]; [STag "a"]]];
    [[[SAttrSub "class" "sidebar"]; [STag "ul"]; [STag "a"]]];
    [[[STag "aside"]; [STag "nav"]; [STag "a"]]];
    inClass "documentation-nav"; inClass "doc-nav"; inClass "docs-menu";
    under [SAttr "data-docs-sidebar"]; cls "nav-link";
    inClass "theme-doc-sidebar-menu"; cls "menu__link";
    inClass "docSidebarContainer"; under [SAttrSub "class" "docSidebar"];
    inClass "docs-sidebar-nav";
    inClass "VPSidebar"; inClass "VPSidebarItem"; inClass "vp-sidebar";
    inClass "VPNavBar"; inClass "sidebar-links";
    inClass "gitbook-navigation"; under [SAttrEq "data-testid" "toc"];
    inClass "css-175oi2r"; inClass "sidebar-navigation";
    inClass "md-nav"; inClass "md-sidebar"; cls "md-nav__link";
    [[[SClass "rst-content"]; [SClass "toctree"]; [STag "a"]]];
    inClass "wy-menu"; inClass "wy-nav-side"; inClass "sphinxsidebar";
    under [SAttr "data-nextra-toc"]; inClass "nextra-sidebar";
    under [STag "nav"; SClass "nextra-toc"];
    under [SAttr "data-sidebar"]; inClass "mintlify-sidebar";
    inClass "notion-table_of_contents";
    inClass "sidebar-nav";
    under [SId "td-sidebar-menu"]; inClass "td-sidebar-nav";
    under [SAttr "data-sidebar"]; inClass "sidebar-content";
    inClass "bd-sidebar"; inClass "docs-toc"; under [SId "docs-sidebar"];
    inClass "doc-sidebar" ].

Definition anchorsWithHref : selector := [[[STag "a"; SAttr "href"]]].

Section Cascade.

(** The class [URL] of the platform. *)
Variable U : UrlClass.
(** [window.location.origin] and [window.location.href] *)
Variable origin : string.
Variable locationHref : string.
(** The address an [href] attribute resolves to against the document. *)
Variable absolutize : string -> string.

(** [anchor.href]: the resolved address of the elements that have the
    property, empty (or undefined, which the source treats alike) otherwise. *)
Definition hrefOf (el : node) : string :=
  if inList (tagOf el) ["a"; "area"; "link"; "base"] then
    match getAttribute "href" (attsOf el) with
    | Some h => absolutize h
    | None => EmptyString
    end
  else EmptyString.

(** The two collections collectLinks updates. *)
Definition harvest : Type := list DetectedSection * gset string.

(** The callback of the [forEach] of collectLinks. *)
Definition collectLink (currentUrl : string) (st : harvest) (link : node) : harvest :=
  let href := hrefOf link in
  let t := Js.trim (textContent link) in
  if String.eqb href EmptyString || String.eqb t EmptyString || (String.length t <? 2)%nat then st
  else if negb (Js.startsWith origin href) then st
  else if Js.includes "#" href && String.eqb (normalizeUrl U href) currentUrl then st
  else if isDownload href then st
  else
    let normalizedHref := normalizeUrl U href in
    if decide (normalizedHref ∈ snd st) then st
    else (fst st ++ [{| title := t; url := href;
                        isCurrentPage := String.eqb normalizedHref currentUrl |}],
          {[ normalizedHref ]} ∪ snd st).

Definition collectLinks (links : list node) (st : harvest) (currentUrl : string) : harvest :=
  fold_left (collectLink currentUrl) links st.

(** Strategy 1: the [for] loop over the selectors with its [break]. *)
Fixpoint strategy1 (d : document) (currentUrl : string)
    (sels : list selector) (st : harvest) : harvest :=
  match sels with
  | [] => st
  | sel :: rest =>
      let links := map snd (docQuerySelectorAll sel d) in
      if (2 <? length links)%nat then
        let st' := collectLinks links st currentUrl in
        if (3 <? length (fst st'))%nat then st'
        else strategy1 d currentUrl rest st'
      else strategy1 d currentUrl rest st
  end.

Definition navSel : selector :=
  [ [[STag "nav"]]; [[STag "aside"]]; [[SAttrEq "role" "navigation"]] ].

Definition strategy2Step (currentUrl : string) (st : harvest) (nav : located) : harvest :=
  if isSkippableNav nav then st
  else
    let links := querySelectorAll anchorsWithHref nav in
    if (5 <? length links)%nat then collectLinks links st currentUrl else st.

Definition isInternal (a : node) : bool :=
  negb (String.eqb (hrefOf a) EmptyString) && Js.startsWith origin (hrefOf a).

(** The test of strategy 3.  The quotient of the two counts is compared
    with 0.8 on the rationals: [i / n > 4 / 5] iff [4 * n < 5 * i]; the
    floating-point comparison of the source agrees with it for counts
    below 2^49, and [n = 0] forces [i = 0], which the first test refuses. *)
Definition mostlyInternal (internal total : nat) : bool :=
  (5 <? internal)%nat && (4 * total <? 5 * internal)%nat.

Definition strategy3Step (currentUrl : string) (st : harvest) (list : located) : harvest :=
  let links := querySelectorAll anchorsWithHref list in
  let internalLinks := filter (fun a => isInternal a = true) links in
  if mostlyInternal (length internalLinks) (length links)
  then collectLinks links st currentUrl
  else st.

Definition strategy2 (d : document) (currentUrl : string) (st : harvest) : harvest :=
  if (length (fst st) <? 3)%nat
  then fold_left (strategy2Step currentUrl) (docQuerySelectorAll navSel d) st
  else st.

Definition strategy3 (d : document) (currentUrl : string) (st : harvest) : harvest :=
  if (length (fst st) <? 3)%nat
  then fold_left (strategy3Step currentUrl) (docQuerySelectorAll (tags ["ul"; "ol"]) d) st
  else st.

Definition detectDocSections (d : document) : list DetectedSection :=
  let currentUrl := normalizeUrl U locationHref in
  let st1 := strategy1 d currentUrl sidebarSelectors ([], ∅) in
  let st2 := strategy2 d currentUrl st1 in
  let st3 := strategy3 d currentUrl st2 in
  fst st3.

End Cascade.

End Harvester.

(** ** The first harvester (extractor.ts, detectDocSections)

    The content script of the repository still carries the first version:
    eleven selectors, links compared by their address as it is, and the
    search stopped at the first selector that gives a link. *)

Module ExtractorTs.

Definition sidebarSelectors : list selector :=
  let under (c : compound) : selector := [[c; [STag "a"]]] in
  let inClass (c : string) : selector := under [SClass c] in
  [ [[[SClass "sidebar"]; [STag "nav"]; [STag "a"]]];
    inClass "docs-sidebar"; inClass "toc"; inClass "table-of-contents";
    under [STag "nav"; SClass "docs"];
    [[[SAttrSub "class" "sidebar"]; [STag "nav"]; [STag "a"]]];
    [[[SAttrSub "class" "sidebar"]; [STag "ul"]; [STag "a"]]];
    [[[STag "aside"]; [STag "nav"]; [STag "a"]]];
    inClass "documentation-nav"; inClass "doc-nav"; inClass "docs-menu" ].

Section Detect.

Variable origin : string.
Variable locationHref : string.
Variable absolutize : string -> string.

(** The callback of [links.forEach]; [sections.find(s => s.url === href)]
    is the test for a duplicate. *)
Definition addLink (sections : list Harvester.DetectedSection) (link : node)
    : list Harvester.DetectedSection :=
  let href := Harvester.hrefOf absolutize link in
  let t := Js.trim (textContent link) in
  if negb (String.eqb href EmptyString) && negb (String.eqb t EmptyString)
     && Js.startsWith origin href
  then
    if existsb (fun s => String.eqb (Harvester.url s) href) sections then sections
    else sections ++ [{| Harvester.title := t; Harvester.url := href;
                         Harvester.isCurrentPage := String.eqb href locationHref |}]
  else sections.

(** The [for] loop over the selectors with its [break]. *)
Fixpoint detectLoop (d : document) (sels : list selector)
    (sections : list Harvester.DetectedSection) : list Harvester.DetectedSection :=
  match sels with
  | [] => sections
  | sel :: rest =>
      let links := map snd (docQuerySelectorAll sel d) in
      if (2 <? length links)%nat then
        let sections' := fold_left addLink links sections in
        if (0 <? length sections')%nat then sections'
        else detectLoop d rest sections'
      else detectLoop d rest sections
  end.

Definition detectDocSections (d : document) : list Harvester.DetectedSection :=
  detectLoop d sidebarSelectors [].

End Detect.

End ExtractorTs.

(** ** The harvester of the MCP server (mcp-server/src/index.ts, detectSections) *)

Module McpServer.

Record DetectedSection := { title : string; url : string }.

Definition sidebarSelectors : list selector :=
  let under (c : compound) : selector := [[c; [STag "a"]]] in
  let inClass (c : string) : selector := under [SClass c] in
  [ [[[SClass "sidebar"]; [STag "nav"]; [STag "a"]]];
    inClass "docs-sidebar"; inClass "toc"; inClass "table-of-contents";
    under [STag "nav"; SClass "docs"];
    [[[SAttrSub "class" "sidebar"]; [STag "nav"]; [STag "a"]]];
    [[[SAttrSub "class" "sidebar"]; [STag "ul"]; [STag "a"]]];
    [[[STag "aside"]; [STag "nav"]; [STag "a"]]];
    inClass "documentation-nav"; inClass "doc-nav"; inClass "docs-menu";
    inClass "theme-doc-sidebar-menu"; cls "menu__link";
    inClass "VPSidebar"; inClass "VPSidebarItem"; inClass "vp-sidebar";
    inClass "gitbook-navigation"; under [SAttrEq "data-testid" "toc"];
    inClass "md-nav"; inClass "md-sidebar";
    [[[SClass "rst-content"]; [SClass "toctree"]; [STag "a"]]];
    inClass "wy-menu";
    under [SAttr "data-nextra-toc"];
    under [SAttr "data-docs-sidebar"]; cls "nav-link" ].

Section Detect.

Variable origin : string.
Variable absolutize : string -> string.

(** The callback of [links.forEach], on [sections] and [seen]. *)
Definition addLink (st : list DetectedSection * gset string) (link : node)
    : list DetectedSection * gset string :=
  let href := Harvester.hrefOf absolutize link in
  let t := Js.trim (textContent link) in
  if negb (String.eqb href EmptyString) && negb (String.eqb t EmptyString)
     && Js.startsWith origin href
     && negb (bool_decide (href ∈ snd st))
  then (fst st ++ [{| title := t; url := href |}], {[ href ]} ∪ snd st)
  else st.

Fixpoint detectLoop (d : document) (sels : list selector)
    (st : list DetectedSection * gset string) : list DetectedSection * gset string :=
  match sels with
  | [] => st
  | sel :: rest =>
      let links := map snd (docQuerySelectorAll sel d) in
      if (2 <? length links)%nat then
        let st' := fold_left addLink links st in
        if (0 <? length (fst st'))%nat then st'
        else detectLoop d rest st'
      else detectLoop d rest st
  end.


End Detect.

End McpServer.

(** ** File names (popup.ts) *)

Module Popup.

(** [s.replace(/[^a-z0-9]+/g, '_')]; [inRun] says that the run the scan
    is in has its underscore already. *)
Fixpoint underscoreRunsGo (inRun : bool) (s : string) : string :=
  match s with
  | EmptyString => EmptyString
  | String c r =>
      if Js.isLowerAlnum c then String c (underscoreRunsGo false r)
      else if inRun then underscoreRunsGo true r
      else String "_"%char (underscoreRunsGo true r)
  end.

Definition underscoreRuns (s : string) : string := underscoreRunsGo false s.

Definition isUnderscore (c : ascii) : bool := Ascii.eqb c "_".

Fixpoint dropLeading (p : ascii -> bool) (s : string) : string :=
  match s with
  | EmptyString => EmptyString
  | String c r => if p c then dropLeading p r else s
  end.

Fixpoint dropTrailing (p : ascii -> bool) (s : string) : string :=
  match s with
  | EmptyString => EmptyString
  | String c r =>
      match dropTrailing p r with
      | EmptyString => if p c then EmptyString else String c EmptyString
      | r' => String c r'
      end
  end.

(** [s.replace(/^_+|_+$/g, '')] *)
Definition stripUnderscores (s : string) : string :=
  dropTrailing isUnderscore (dropLeading isUnderscore s).

Definition sanitizeFilename (name : string) : string :=
  Js.take 50 (stripUnderscores (underscoreRuns (Js.toLowerCase name))).

Definition isDomainChar (c : ascii) : bool := Js.isLowerAlnum c || Ascii.eqb c "-".

Section Domain.

(** [new URL(url).hostname]; [None] when the constructor throws. *)
Variable hostnameOf : string -> option string.

Definition extractDomainName (url : string) : string :=
  match hostnameOf url with
  | Some hostname =>
      let domain :=
        Js.dropPrefix "dev."
          (Js.dropPrefix "developer."
             (Js.dropPrefix "api."
                (Js.dropPrefix "docs." (Js.dropPrefix "www." hostname)))) in
      let parts := Js.split "." domain in
      let domain' := if (2 <=? length parts)%nat then hd EmptyString parts else domain in
      let cleaned := Js.take 30 (Js.keepChars isDomainChar (Js.toLowerCase domain')) in
      if String.eqb cleaned EmptyString then "extracted" else cleaned
  | None => "extracted"
  end.

End Domain.

End Popup.

(** ** Definitions used to state the properties *)

(** *** Trees *)

(** The identities of a tree. *)
Fixpoint nodeIds (n : node) : list nat :=
  match n with
  | Text i _ | Other i _ _ => [i]
  | Element i _ _ cs => i :: flat_map nodeIds cs
  end.

(** Every identity of the tree is at least [base]. *)
Definition freshFrom (base : nat) (n : node) : Prop :=
  Forall (fun j => (base <= j)%nat) (nodeIds n).

(** The store is the one the caller has, [st0], and the clone is made of
    new objects only. *)
Definition untouchedBy (st0 : store) (base : nat) (st : store * node) : Prop :=
  fst st = st0 /\ freshFrom base (snd st).

(** The content of a tree, the identities forgotten. *)
Fixpoint eraseIds (n : node) : node :=
  match n with
  | Text _ d => Text 0 d
  | Other _ k d => Other 0 k d
  | Element _ t a cs => Element 0 t a (map eraseIds cs)
  end.

(** The elements of a subtree, and the descendants of a node, in document
    order; the same with the ancestors of each element. *)
Fixpoint subtreeElements (n : node) : list node :=
  match n with
  | Element _ _ _ cs => n :: flat_map subtreeElements cs
  | _ => []
  end.

Definition descendantElements (n : node) : list node :=
  flat_map subtreeElements (childNodes n).

Fixpoint subtreeLocated (anc : list einfo) (n : node) : list located :=
  match n with
  | Element _ t a cs => (anc, n) :: flat_map (subtreeLocated ((t, a) :: anc)) cs
  | _ => []
  end.

Definition descendantsLocated (el : located) : list located :=
  match snd el with
  | Element _ t a cs => flat_map (subtreeLocated ((t, a) :: fst el)) cs
  | _ => []
  end.

(** The tags and attributes of the elements of a subtree, and of the
    descendants of a node, in document order. *)
Definition einfoOf (n : node) : einfo := (tagOf n, attsOf n).

(** *** Headings and code blocks *)

Definition isHeadingElement (n : node) : bool :=
  inList (tagOf n) ["h1"; "h2"; "h3"; "h4"; "h5"; "h6"].



(** *** Language hints *)

(** The language hint as the design document words it: a prefixed token
    is looked for first, over all tokens; the list of names is consulted
    only when there is none. *)
Definition hasLanguagePrefix (c : string) : bool :=
  Js.startsWith "language-" c || Js.startsWith "lang-" c.

Definition stripLanguagePrefix (c : string) : string :=
  if Js.startsWith "language-" c then Js.dropChars 9 c else Js.dropChars 5 c.

Definition isLanguageName (c : string) : bool :=
  inList (Js.toLowerCase c) languageNames.

Definition languageHintSpec (classAttr : string) : string :=
  let tokens := Js.split " " classAttr in
  match List.find hasLanguagePrefix tokens with
  | Some t => stripLanguagePrefix t
  | None => match List.find isLanguageName tokens with
            | Some t => Js.toLowerCase t
            | None => EmptyString
            end
  end.

(** What the loop of the source returns for the token it stops at. *)
Definition languageOfToken (c : string) : string :=
  if hasLanguagePrefix c then stripLanguagePrefix c else Js.toLowerCase c.

Definition isLowerCase (s : string) : bool := String.eqb (Js.toLowerCase s) s.

(** *** Tables *)

Definition lineOf (row : node) : string := rowLine (cellTextsOf row).

(** The number of separator rows the loop adds to [result]. *)
Fixpoint separatorsAdded (rows : list node) (rowIndex : nat) (headerProcessed : bool) : nat :=
  match rows with
  | [] => 0
  | row :: rest =>
      if negb headerProcessed && (hasHeaderCell row || (rowIndex =? 0)%nat)
      then S (separatorsAdded rest (S rowIndex) true)
      else separatorsAdded rest (S rowIndex) headerProcessed
  end.

(** *** Harvesting *)

(** The address a harvested link is compared by. *)
Definition normalizedUrlOf (U : Harvester.UrlClass) (s : Harvester.DetectedSection) : string :=
  Harvester.normalizeUrl U (Harvester.url s).

(** What collectLinks maintains: the links have distinct normalized
    addresses, all of them recorded in the set. *)
Definition harvestInv (U : Harvester.UrlClass) (st : Harvester.harvest) : Prop :=
  NoDup (map (normalizedUrlOf U) (fst st)) /\
  forall x, x ∈ map (normalizedUrlOf U) (fst st) -> x ∈ snd st.






(** *** Sample pages and regions *)

(** *** A sample of the class URL

    The pages below use serialized [http] and [https] addresses
    [scheme://host/path?query#fragment] only.  On such an address, and on
    the text without a scheme that one example uses, [sampleUrls] answers
    as the class of the platform does.  It says nothing of the class
    elsewhere (addresses without a host, such as the [file:] and
    [mailto:] ones, and texts that are no serialized address), and it
    stands for the class in the examples only: what is proved of the
    harvester in general is proved for every class. *)

Module SampleUrl.

Record parts := {
  protocol : string;
  host : string;
  pathname : string;
  search : string;
  hash : string
}.

Fixpoint takeUntil (stop : ascii -> bool) (s : string) : string * string :=
  match s with
  | EmptyString => (EmptyString, EmptyString)
  | String c r =>
      if stop c then (EmptyString, s)
      else let '(a, b) := takeUntil stop r in (String c a, b)
  end.

Definition isAlpha (c : ascii) : bool :=
  let n := nat_of_ascii c in
  (((65 <=? n) && (n <=? 90)) || ((97 <=? n) && (n <=? 122)))%nat.

Definition isSchemeChar (c : ascii) : bool :=
  let n := nat_of_ascii c in
  isAlpha c || ((48 <=? n) && (n <=? 57))%nat
  || Ascii.eqb c "+" || Ascii.eqb c "-" || Ascii.eqb c ".".

Fixpoint allChars (p : ascii -> bool) (s : string) : bool :=
  match s with
  | EmptyString => true
  | String c r => p c && allChars p r
  end.

Definition validScheme (s : string) : bool :=
  match s with
  | EmptyString => false
  | String c r => isAlpha c && allChars isSchemeChar r
  end.

Definition parse (s : string) : option parts :=
  let '(scheme, r0) := takeUntil (Ascii.eqb ":") s in
  if validScheme scheme && Js.startsWith "://" r0 then
    let r1 := Js.dropChars 3 r0 in
    let '(h, r2) := takeUntil (fun c => Ascii.eqb c "/" || Ascii.eqb c "?" || Ascii.eqb c "#") r1 in
    if String.eqb h EmptyString then None
    else
      let '(p, r3) := takeUntil (fun c => Ascii.eqb c "?" || Ascii.eqb c "#") r2 in
      let '(q, f) := takeUntil (Ascii.eqb "#") r3 in
      Some {| protocol := scheme +:+ ":"; host := h;
              pathname := if String.eqb p EmptyString then "/" else p;
              search := q; hash := f |}
  else None.

Definition withPathname (u : parts) (p : string) : parts :=
  {| protocol := protocol u; host := host u; pathname := p;
     search := search u; hash := hash u |}.

Definition withHash (u : parts) (h : string) : parts :=
  {| protocol := protocol u; host := host u; pathname := pathname u;
     search := search u;
     hash := if String.eqb h EmptyString || Js.startsWith "#" h then h else "#" +:+ h |}.

Definition serialize (u : parts) : string :=
  protocol u +:+ "//" +:+ host u +:+ pathname u +:+ search u +:+ hash u.

End SampleUrl.

Definition sampleUrls : Harvester.UrlClass :=
  {| Harvester.URL := SampleUrl.parts;
     Harvester.newURL := SampleUrl.parse;
     Harvester.pathname := SampleUrl.pathname;
     Harvester.setPathname := SampleUrl.withPathname;
     Harvester.setHash := SampleUrl.withHash;
     Harvester.toString := SampleUrl.serialize |}.

(** The two regions the design document gives as examples. *)
Definition helloParagraph : node := Element 1 "p" [] [Text 2 "Hello world"].

Definition twoItemList : node :=
  Element 1 "ol" [] [ Element 2 "li" [] [Text 3 "a"]; Element 4 "li" [] [Text 5 "b"] ].

(** A header row, then a row that has a header cell too. *)
Definition twoRowTable : node :=
  Element 1 "table" []
    [ Element 2 "tr" [] [ Element 3 "th" [] [Text 4 "H1"];
                          Element 5 "th" [] [Text 6 "H2"] ];
      Element 7 "tr" [] [ Element 8 "th" [] [Text 9 "a"];
                          Element 10 "td" [] [Text 11 "b"] ] ].

(** A region that holds one [pre] around a [code] marked as Python. *)
Definition pythonRegion : node :=
  Element 1 "div" []
    [ Element 2 "pre" []
        [ Element 3 "code" [("class", "language-python")] [Text 4 "print(1)"] ] ].

Definition pythonBlock : CodeBlock := {| language := "python"; code := "print(1)" |}.

(** A region with a navigation block in front of its title. *)
Definition navRegion : node :=
  Element 1 "div" []
    [ Element 2 "nav" [] [Element 3 "h2" [] [Text 4 "Menu"]];
      Element 5 "h1" [("id", "top")] [Text 6 " Title "];
      Element 7 "p" [] [Text 8 "Body text"] ].

(** A page whose body holds a short [main], a paragraph and a skippable
    [div]. *)
Definition plainPage : document :=
  {| html_id := 0; html_atts := []; head_node := Element 1 "head" [] [];
     body_id := 2; body_atts := [];
     body_children :=
       [ Element 7 "main" [] [Text 8 "Only a teaser"];
         Element 3 "p" [] [Text 4 "Hello world"];
         Element 5 "div" [("class", "sidebar")] [Text 6 "menu"] ] |}.

(** A page whose body starts with a navigation block that holds a heading
    and a code block. *)
Definition navPage : document :=
  {| html_id := 0; html_atts := []; head_node := Element 20 "head" [] [];
     body_id := 1; body_atts := [];
     body_children :=
       [ Element 2 "nav" []
           [ Element 3 "h2" [] [Text 4 "Menu"]; Element 9 "pre" [] [Text 10 "ls"] ];
         Element 5 "h1" [("id", "top")] [Text 6 " Title "];
         Element 7 "p" [] [Text 8 "Body text"] ] |}.

Definition anchor (i : nat) (href label : string) : node :=
  Element i "a" [("href", href)] [Text (S i) label].

(** A table of contents that names one page three times: with and
    without the final slash, and with a fragment. *)
Definition slashPage : document :=
  {| html_id := 0; html_atts := []; head_node := Element 1 "head" [] [];
     body_id := 2; body_atts := [];
     body_children :=
       [ Element 3 "div" [("class", "toc")]
           [ anchor 10 "https://x.com/doc/" "Doc";
             anchor 20 "https://x.com/doc" "Doc again";
             anchor 30 "https://x.com/doc#intro" "Intro" ] ] |}.


(** *** Predicates on strings *)

Definition headIsSpace (s : string) : bool :=
  match s with
  | String c _ => Js.isSpace c
  | EmptyString => false
  end.

Fixpoint hasChar (c : ascii) (s : string) : bool :=
  match s with
  | EmptyString => false
  | String x r => Ascii.eqb x c || hasChar c r
  end.

Fixpoint everyChar (p : ascii -> bool) (s : string) : bool :=
  match s with
  | EmptyString => true
  | String c r => p c && everyChar p r
  end.

(** The only white space is the space character, and no two of them are
    adjacent; [afterSpace] says that the previous character was a space. *)
Fixpoint singleSpacedFrom (afterSpace : bool) (s : string) : bool :=
  match s with
  | EmptyString => true
  | String c r =>
      if Js.isSpace c
      then Ascii.eqb c " " && negb afterSpace && singleSpacedFrom true r
      else singleSpacedFrom false r
  end.

Definition singleSpaced (s : string) : bool := singleSpacedFrom false s.

(** No run of new-lines reaches three; [run] new-lines come just before. *)
Fixpoint newlineRunsBelow3 (run : nat) (s : string) : bool :=
  match s with
  | EmptyString => true
  | String c r =>
      if Ascii.eqb c (ascii_of_nat 10)
      then (run <? 2)%nat && newlineRunsBelow3 (S run) r
      else newlineRunsBelow3 0 r
  end.

(** A page with a skippable column and a text column. *)
Definition twoColumnPage : document :=
  {| html_id := 0; html_atts := []; head_node := Element 1 "head" [] [];
     body_id := 2; body_atts := [];
     body_children :=
       [ Element 3 "div" [("class", "sidebar")] [Text 4 "Many links and many more words here"];
         Element 5 "div" [("id", "text")] [Element 6 "p" [] [Text 7 "Some words to read"]];
         Element 8 "section" [] [Text 9 "Short"] ] |}.

(** A page with a short [main] and an [article] of sixty words. *)
Definition sixtyWords : string := repeatString "word " 60.

Definition articlePage : document :=
  {| html_id := 0; html_atts := []; head_node := Element 1 "head" [] [];
     body_id := 2; body_atts := [];
     body_children :=
       [ Element 3 "main" [] [Text 4 "Only a teaser"];
         Element 5 "article" [] [Text 6 sixtyWords];
         Element 7 "div" [("class", "vp-doc")] [Text 8 sixtyWords] ] |}.

Definition eraseLoc (el : located) : located := (fst el, eraseIds (snd el)).

(** The identity, tag and attributes of the elements of a subtree and of
    the descendants of a node. *)
Fixpoint subtreeKeys (n : node) : list (nat * einfo) :=
  match n with
  | Element i t a cs => (i, (t, a)) :: flat_map subtreeKeys cs
  | _ => []
  end.

Definition descendantKeys (n : node) : list (nat * einfo) :=
  flat_map subtreeKeys (childNodes n).




(** A selector that does not look at the ancestors. *)
Definition contextFree (sel : selector) : Prop :=
  forall anc anc' e, matchSelector sel anc e = matchSelector sel anc' e.

(** The record collectLinks makes of a link, and the tests a link passes
    to be recorded (the test on the set of seen addresses apart). *)
Definition linkRecord (U : Harvester.UrlClass) (absolutize : string -> string) (currentUrl : string)
    (link : node) : Harvester.DetectedSection :=
  {| Harvester.title := Js.trim (textContent link);
     Harvester.url := Harvester.hrefOf absolutize link;
     Harvester.isCurrentPage :=
       String.eqb (Harvester.normalizeUrl U (Harvester.hrefOf absolutize link)) currentUrl |}.

Definition accepted (U : Harvester.UrlClass) (origin : string) (absolutize : string -> string)
    (currentUrl : string) (link : node) : Prop :=
  let href := Harvester.hrefOf absolutize link in
  href <> EmptyString
  /\ (2 <= String.length (Js.trim (textContent link)))%nat
  /\ Js.startsWith origin href = true
  /\ Harvester.isDownload href = false
  /\ (Js.includes "#" href = true -> Harvester.normalizeUrl U href <> currentUrl).

(** A table of contents with four pages. *)
Definition fourLinkPage : document :=
  {| html_id := 0; html_atts := []; head_node := Element 1 "head" [] [];
     body_id := 2; body_atts := [];
     body_children :=
       [ Element 3 "div" [("class", "toc")]
           [ anchor 10 "https://x.com/a" "Page a"; anchor 20 "https://x.com/b" "Page b";
             anchor 30 "https://x.com/c" "Page c"; anchor 40 "https://x.com/d" "Page d" ] ] |}.

(** The characters of a sanitized file name. *)
Definition isNameChar (c : ascii) : bool := Js.isLowerAlnum c || Popup.isUnderscore c.

Definition headIsUnderscore (s : string) : bool :=
  match s with
  | String c _ => Popup.isUnderscore c
  | EmptyString => false
  end.

(** No element of the subtree has one of the tags. *)
Fixpoint avoidsTags (ts : list string) (n : node) : bool :=
  match n with
  | Element _ t _ cs => negb (inList t ts) && forallb (avoidsTags ts) cs
  | _ => true
  end.








(** The tests of collectLinks that do not look at the set of seen
    addresses. *)
Definition refused (U : Harvester.UrlClass) (origin : string) (absolutize : string -> string)
    (currentUrl : string) (link : node) : bool :=
  let href := Harvester.hrefOf absolutize link in
  let t := Js.trim (textContent link) in
  String.eqb href EmptyString || String.eqb t EmptyString
  || (String.length t <? 2)%nat
  || negb (Js.startsWith origin href)
  || (Js.includes "#" href && String.eqb (Harvester.normalizeUrl U href) currentUrl)
  || Harvester.isDownload href.

(** * Properties *)

(** ** The renderer on the examples of the design document *)

Example render_hello_paragraph r :
  processNode r None helloParagraph = Some (nl2 +:+ "Hello world" +:+ nl2).
Proof. reflexivity. Qed.

Example render_ordered_list r :
  processNode r None twoItemList = Some (nl2 +:+ "1. a" +:+ Js.nl +:+ "2. b" +:+ nl2).
Proof. reflexivity. Qed.

Example render_table r :
  processNode r None twoRowTable =
  Some (nl2 +:+ "| H1 | H2 |" +:+ Js.nl +:+ "| --- | --- |" +:+ Js.nl +:+ "| a | b |" +:+ nl2).
Proof. reflexivity. Qed.

Example mcp_render_hello_paragraph r :
  snd (Mcp.convertToMarkdown r [] helloParagraph) = Some "Hello world".
Proof. reflexivity. Qed.

Example split_keeps_empty_pieces : Js.split " " "a  b" = ["a"; EmptyString; "b"].
Proof. reflexivity. Qed.

Example splitWs_of_empty : Js.splitWs EmptyString = [EmptyString].
Proof. reflexivity. Qed.

(** ** Induction on trees *)

Lemma node_ind (P : node -> Prop)
    (HText : forall i d, P (Text i d))
    (HOther : forall i k d, P (Other i k d))
    (HElement : forall i t a cs, Forall P cs -> P (Element i t a cs)) :
  forall n, P n.
Proof.
  fix IH 1. intros [i d | i k d | i t a cs].
  - apply HText.
  - apply HOther.
  - apply HElement. induction cs as [| c cs IHcs]; constructor.
    + apply IH.
    + apply IHcs.
Qed.

(** ** Strings *)

Lemma splitWsGo_nonempty cur inRun s : (1 <= length (Js.splitWsGo cur inRun s))%nat.
Proof.
  revert cur inRun. induction s as [| c r IH]; intros cur inRun; simpl.
  - lia.
  - destruct (Js.isSpace c); [destruct inRun |]; simpl; auto with lia.
Qed.

Lemma wordCount_pos el : (1 <= wordCount el)%nat.
Proof. apply splitWsGo_nonempty. Qed.

Lemma replaceFirst_prefix p s :
  Js.startsWith p s = true -> Js.replaceFirst p EmptyString s = Js.dropChars (String.length p) s.
Proof. intros H. destruct s; simpl; rewrite H; reflexivity. Qed.

(** ** Selection *)

Lemma selectFrom_elements sel anc n :
  Forall (fun el => isElement (snd el) = true) (selectFrom sel anc n).
Proof.
  revert anc. induction n as [| | i t a cs IH] using node_ind; intros anc; simpl;
    try constructor.
  apply Forall_app. split.
  - destruct (matchSelector sel anc (t, a)); repeat constructor.
  - apply Forall_flat_map. eapply Forall_impl; [exact IH |].
    intros c Hc. apply Hc.
Qed.

(** ** Content region selection *)

Lemma score_pos el : (1 <= score el)%nat.
Proof. unfold score. pose proof (wordCount_pos el). lia. Qed.

Lemma largest_fold_some cands el m :
  exists el' m', fold_left largestStep cands (Some el, m) = (Some el', m').
Proof.
  revert el m. induction cands as [| c cands IH]; intros el m; simpl.
  - eauto.
  - unfold largestStep at 2. simpl.
    destruct (isSkippableElement (snd c)); [apply IH |].
    destruct (m <? score (snd c))%nat; apply IH.
Qed.

Lemma largest_fold_none cands :
  fst (fold_left largestStep cands (None, 0)) = None <->
  Forall (fun el => isSkippableElement (snd el) = true) cands.
Proof.
  induction cands as [| c cands IH]; simpl.
  - split; [constructor | reflexivity].
  - unfold largestStep at 2. simpl.
    destruct (isSkippableElement (snd c)) eqn:Hskip.
    + rewrite IH. split.
      * intros H. constructor; assumption.
      * intros H. inversion H; assumption.
    + assert (Hpos : (0 <? score (snd c))%nat = true).
      { apply Nat.ltb_lt. pose proof (score_pos (snd c)). lia. }
      rewrite Hpos.
      destruct (largest_fold_some cands c (score (snd c))) as (el' & m' & ->).
      simpl. split; [discriminate |].
      intros H. inversion H; congruence.
Qed.

(** The density search finds nothing exactly when every [div] and
    [section] of the document is skippable. *)
Lemma findLargestContentArea_none d :
  findLargestContentArea d = None <->
  Forall (fun el => isSkippableElement (snd el) = true)
         (docQuerySelectorAll (tags ["div"; "section"]) d).
Proof. apply largest_fold_none. Qed.

Lemma largest_fold_in cands st el :
  fst (fold_left largestStep cands st) = Some el ->
  fst st = Some el \/ In el cands.
Proof.
  revert st. induction cands as [| c cands IH]; intros st H; simpl in *.
  - left. exact H.
  - apply IH in H. destruct H as [H | H]; [| right; right; exact H].
    unfold largestStep in H.
    destruct (isSkippableElement (snd c)); [left; exact H |].
    destruct (snd st <? score (snd c))%nat; [| left; exact H].
    simpl in H. right. left. congruence.
Qed.

Lemma firstSubstantial_in d sels el :
  firstSubstantial d sels = Some el ->
  exists sel, In sel sels /\ docQuerySelector sel d = Some el
              /\ hasSubstantialContent (snd el) = true.
Proof.
  induction sels as [| sel sels IH]; simpl; [discriminate |].
  destruct (docQuerySelector sel d) as [e |] eqn:Hq.
  - destruct (hasSubstantialContent (snd e)) eqn:Hs.
    + intros [= <-]. exists sel. auto.
    + intros H. destruct (IH H) as (s & Hin & Hr). exists s. auto.
  - intros H. destruct (IH H) as (s & Hin & Hr). exists s. auto.
Qed.

Lemma firstSubstantial_none d sels :
  (forall sel el, In sel sels -> docQuerySelector sel d = Some el ->
                  hasSubstantialContent (snd el) = false) ->
  firstSubstantial d sels = None.
Proof.
  induction sels as [| sel sels IH]; intros H; simpl; [reflexivity |].
  destruct (docQuerySelector sel d) as [e |] eqn:Hq.
  - rewrite (H sel e (or_introl eq_refl) Hq). apply IH.
    intros s el Hin. apply H. right. exact Hin.
  - apply IH. intros s el Hin. apply H. right. exact Hin.
Qed.

Lemma docQuerySelector_element sel d el :
  docQuerySelector sel d = Some el -> isElement (snd el) = true.
Proof.
  unfold docQuerySelector, docQuerySelectorAll. intros H.
  pose proof (selectFrom_elements sel [] (documentElement d)) as HF.
  destruct (selectFrom sel [] (documentElement d)) as [| x l]; [discriminate |].
  injection H as <-. inversion HF; assumption.
Qed.

(** C3.  getMainContent always returns an element, and it returns the
    body of the document when no selector of the list finds an element
    with more than 50 words and the density search finds no element. *)
Theorem getMainContent_falls_back_to_body (d : document) :
  isElement (snd (getMainContent d)) = true /\
  ((forall sel el, In sel mainSelectors -> docQuerySelector sel d = Some el ->
                   hasSubstantialContent (snd el) = false) ->
   findLargestContentArea d = None ->
   getMainContent d = bodyLoc d).
Proof.
  split.
  - unfold getMainContent.
    destruct (firstSubstantial d mainSelectors) as [el |] eqn:Hf.
    + destruct (firstSubstantial_in _ _ _ Hf) as (sel & _ & Hq & _).
      eapply docQuerySelector_element; eassumption.
    + destruct (findLargestContentArea d) as [el |] eqn:Hl; [| reflexivity].
      unfold findLargestContentArea in Hl.
      apply largest_fold_in in Hl. destruct Hl as [Hl | Hl]; [discriminate |].
      pose proof (selectFrom_elements (tags ["div"; "section"]) [] (documentElement d)) as HF.
      rewrite Forall_forall in HF. apply HF.
      apply list_elem_of_In. exact Hl.
  - intros Hsel Hnone. unfold getMainContent.
    rewrite (firstSubstantial_none d mainSelectors Hsel), Hnone. reflexivity.
Qed.

Lemma getMainContent_falls_back_to_body_witness :
  getMainContent plainPage = bodyLoc plainPage.
Proof.
  apply (getMainContent_falls_back_to_body plainPage).
  - intros sel el Hin. unfold mainSelectors in Hin. simpl in Hin.
    repeat (destruct Hin as [<- | Hin];
            [vm_compute; intros Hq;
             first [discriminate Hq | injection Hq as <-; reflexivity] |]).
    destruct Hin.
  - vm_compute. reflexivity.
Defined.

(** ** Headings *)

Lemma orUndefined_spec s :
  (orUndefined s = None <-> s = EmptyString) /\
  (forall v, orUndefined s = Some v <-> s = v /\ v <> EmptyString).
Proof.
  unfold orUndefined. destruct (String.eqb_spec s EmptyString) as [-> | Hne].
  - split; [tauto |]. intros v. split; [discriminate |]. intros [<- H]. congruence.
  - split.
    + split; [discriminate | contradiction].
    + intros v. split.
      * intros [= <-]. auto.
      * intros [<- _]. reflexivity.
Qed.

(** C9.  The record of a heading has an [id] exactly when the [id]
    attribute of the element is a non-empty string; with no attribute or
    an empty one the field is undefined, and it is never the empty string. *)
Theorem heading_id_present_iff_nonempty (container : located) :
  Forall2 (fun el h =>
             (forall v, id h = Some v <->
                        getAttribute "id" (attsOf el) = Some v /\ v <> EmptyString) /\
             (id h = None <->
                getAttribute "id" (attsOf el) = None \/
                getAttribute "id" (attsOf el) = Some EmptyString) /\
             id h <> Some EmptyString)
          (querySelectorAll headingSel container)
          (extractHeadings container).
Proof.
  unfold extractHeadings.
  induction (querySelectorAll headingSel container) as [| el els IH]; simpl;
    constructor; [| exact IH].
  unfold headingOf, idOf. simpl.
  destruct (orUndefined_spec (default EmptyString (getAttribute "id" (attsOf el)))) as [Hn Hs].
  destruct (getAttribute "id" (attsOf el)) as [w |]; simpl in *.
  - split; [| split].
    + intros v. rewrite Hs. split.
      * intros [-> Hv]. auto.
      * intros [[= ->] Hv]. auto.
    + rewrite Hn. split.
      * intros ->. right. reflexivity.
      * intros [Hx | [= ->]]; [discriminate | reflexivity].
    + intros Hx. apply Hs in Hx. destruct Hx as [_ Hx]. congruence.
  - split; [| split].
    + intros v. rewrite Hs. split.
      * intros [<- Hv]. congruence.
      * intros [Hx _]. discriminate.
    + rewrite Hn. split; auto.
    + intros Hx. apply Hs in Hx. destruct Hx as [_ Hx]. congruence.
Qed.

(** ** Rendering of the nodes that are neither text nor element *)

Lemma sequence_app {A} (xs ys : list (option A)) :
  sequence (xs ++ ys) =
  match sequence xs, sequence ys with
  | Some a, Some b => Some (a ++ b)
  | _, _ => None
  end.
Proof.
  induction xs as [| [x |] xs IH]; simpl.
  - destruct (sequence ys); reflexivity.
  - rewrite IH. destruct (sequence xs), (sequence ys); reflexivity.
  - reflexivity.
Qed.


Lemma append_cons (c : ascii) (a b : string) : String c a +:+ b = String c (a +:+ b).
Proof. reflexivity. Qed.




Lemma processNode_element r parent i t a cs :
  processNode r parent (Element i t a cs) =
  if isHidden a then Some EmptyString
  else match sequence (map (processNode r (Some t)) cs) with
       | None => None
       | Some parts =>
           match sequence (flat_map (fun c => if isLi c
                                              then [processNode r (Some t) c]
                                              else []) cs) with
           | None => None
           | Some items => renderElement r parent (Element i t a cs) (Js.joinAll parts) items
           end
       end.
Proof. reflexivity. Qed.

Section CommentAmongChildren.

Variables (i j : nat) (t d : string) (a : attrs) (cs1 cs2 : list node).







End CommentAmongChildren.

(** ** Tables *)

Lemma tableLoop_after_header rows k result :
  tableLoop rows k true result = result ++ map lineOf rows.
Proof.
  revert k result. induction rows as [| row rows IH]; intros k result; simpl.
  - rewrite app_nil_r. reflexivity.
  - rewrite IH, <- app_assoc. reflexivity.
Qed.

Lemma tableLoop_first row rows result :
  tableLoop (row :: rows) 0 false result =
  result ++ lineOf row :: sepLine (cellTextsOf row) :: map lineOf rows.
Proof.
  simpl. rewrite orb_true_r. simpl.
  rewrite tableLoop_after_header, <- !app_assoc. reflexivity.
Qed.

Lemma sepLine_cells cellTexts :
  sepLine cellTexts = "| " +:+ Js.join " | " (repeat "---" (length cellTexts)) +:+ " |".
Proof.
  unfold sepLine.
  replace (map (fun _ : string => "---") cellTexts)
    with (repeat "---" (length cellTexts)); [reflexivity |].
  induction cellTexts as [| c cs IH]; simpl; [reflexivity | rewrite IH; reflexivity].
Qed.

Lemma separatorsAdded_after_header rows k : separatorsAdded rows k true = 0.
Proof. revert k. induction rows as [| row rows IH]; intros k; simpl; auto. Qed.

Lemma tableLoop_length rows k hp result :
  length (tableLoop rows k hp result) =
  length result + length rows + separatorsAdded rows k hp.
Proof.
  revert k hp result. induction rows as [| row rows IH]; intros k hp result; simpl.
  - lia.
  - destruct (negb hp && (hasHeaderCell row || (k =? 0)%nat)); rewrite IH;
      rewrite ?length_app; simpl; lia.
Qed.

(** C7.  The lines of a table are: the line of the first row, one
    separator with one [---] cell for each cell of that row, then the lines
    of the other rows and nothing else, whether or not these rows have
    header cells; the loop adds exactly one separator. *)
Theorem table_has_one_separator_after_first_row (table : node) :
  tableLines table =
    match querySelectorAll (tags ["tr"]) (atTop table) with
    | [] => []
    | row :: rest => lineOf row :: sepLine (cellTextsOf row) :: map lineOf rest
    end
  /\ (forall row rest,
        querySelectorAll (tags ["tr"]) (atTop table) = row :: rest ->
        separatorsAdded (row :: rest) 0 false = 1
        /\ sepLine (cellTextsOf row) =
           "| " +:+ Js.join " | " (repeat "---" (length (cellTextsOf row))) +:+ " |"
        /\ convertTableToMarkdown table =
           nl2 +:+ Js.join Js.nl (lineOf row :: sepLine (cellTextsOf row) :: map lineOf rest)
               +:+ nl2).
Proof.
  split.
  - unfold tableLines.
    destruct (querySelectorAll (tags ["tr"]) (atTop table)) as [| row rest];
      [reflexivity |].
    rewrite tableLoop_first. reflexivity.
  - intros row rest Hrows. split; [| split].
    + simpl. rewrite orb_true_r. simpl.
      rewrite separatorsAdded_after_header. reflexivity.
    + apply sepLine_cells.
    + unfold convertTableToMarkdown, tableLines. rewrite Hrows, tableLoop_first.
      reflexivity.
Qed.

Lemma table_has_one_separator_after_first_row_witness :
  convertTableToMarkdown twoRowTable =
  nl2 +:+ "| H1 | H2 |" +:+ Js.nl +:+ "| --- | --- |" +:+ Js.nl +:+ "| a | b |" +:+ nl2.
Proof.
  destruct (table_has_one_separator_after_first_row twoRowTable) as [_ H].
  destruct (H (Element 2 "tr" [] [ Element 3 "th" [] [Text 4 "H1"];
                                   Element 5 "th" [] [Text 6 "H2"] ])
              [ Element 7 "tr" [] [ Element 8 "th" [] [Text 9 "a"];
                                    Element 10 "td" [] [Text 11 "b"] ] ]
              eq_refl) as (_ & _ & ->).
  reflexivity.
Defined.

(** ** Language hints *)

Lemma lowerChar_idem c : Js.lowerChar (Js.lowerChar c) = Js.lowerChar c.
Proof. destruct c as [[] [] [] [] [] [] [] []]; reflexivity. Qed.

Lemma toLowerCase_idem s : Js.toLowerCase (Js.toLowerCase s) = Js.toLowerCase s.
Proof.
  induction s as [| c s IH]; simpl; [reflexivity |].
  rewrite lowerChar_idem, IH. reflexivity.
Qed.

Lemma languageOfClasses_find classes :
  languageOfClasses classes =
  match List.find (fun t => hasLanguagePrefix t || isLanguageName t) classes with
  | Some t => languageOfToken t
  | None => EmptyString
  end.
Proof.
  induction classes as [| c rest IH]; [reflexivity |].
  cbn [languageOfClasses List.find].
  unfold languageOfToken, hasLanguagePrefix, stripLanguagePrefix, isLanguageName.
  destruct (Js.startsWith "language-" c) eqn:H1; cbn [orb].
  - rewrite H1. cbn [orb]. apply (replaceFirst_prefix "language-" c H1).
  - destruct (Js.startsWith "lang-" c) eqn:H2; cbn [orb].
    + rewrite H1, H2. cbn [orb]. apply (replaceFirst_prefix "lang-" c H2).
    + destruct (inList (Js.toLowerCase c) languageNames) eqn:H3.
      * rewrite H1, H2. reflexivity.
      * exact IH.
Qed.

Lemma detectLanguageOfClasses_find classes :
  detectLanguageOfClasses classes =
  match List.find hasLanguagePrefix classes with
  | Some t => stripLanguagePrefix t
  | None => EmptyString
  end.
Proof.
  induction classes as [| c rest IH]; [reflexivity |].
  cbn [detectLanguageOfClasses List.find].
  unfold hasLanguagePrefix, stripLanguagePrefix.
  destruct (Js.startsWith "language-" c) eqn:H1; cbn [orb].
  - rewrite H1. apply (replaceFirst_prefix "language-" c H1).
  - destruct (Js.startsWith "lang-" c) eqn:H2; cbn [orb].
    + rewrite H1. apply (replaceFirst_prefix "lang-" c H2).
    + exact IH.
Qed.

(** C4, as stated, fails: a language name that stands before a prefixed
    token wins over it, and a prefixed token keeps its capitals. *)
Lemma languageHint_not_prefix_first :
  languageHint "python lang-js" = "python" /\
  languageHintSpec "python lang-js" = "js" /\
  languageHint "language-Python" = "Python" /\
  isLowerCase (languageHint "language-Python") = false.
Proof. repeat split; reflexivity. Qed.

Lemma languageHint_agrees tokens :
  (forall t, List.find (fun t => hasLanguagePrefix t || isLanguageName t) tokens = Some t ->
             hasLanguagePrefix t = false ->
             List.find hasLanguagePrefix tokens = None) ->
  match List.find (fun t => hasLanguagePrefix t || isLanguageName t) tokens with
  | Some t => languageOfToken t
  | None => EmptyString
  end =
  match List.find hasLanguagePrefix tokens with
  | Some t => stripLanguagePrefix t
  | None => match List.find isLanguageName tokens with
            | Some t => Js.toLowerCase t
            | None => EmptyString
            end
  end.
Proof.
  induction tokens as [| c rest IH]; intros H; [reflexivity |].
  cbn [List.find] in *. unfold languageOfToken in *.
  destruct (hasLanguagePrefix c) eqn:Hp; cbn [orb] in *.
  - rewrite Hp. reflexivity.
  - destruct (isLanguageName c) eqn:Hn.
    + rewrite Hp. rewrite (H c eq_refl Hp). reflexivity.
    + apply IH. exact H.
Qed.

(** C4, amended.  The tokens (the pieces between single spaces) are
    scanned once: the first token that is prefixed with [language-] or
    [lang-], or that is a language name of the list whatever its case,
    decides; a prefixed token is returned without its prefix and otherwise
    unchanged, a language name in lower case; with no such token the hint
    is empty.  A hint taken from a language name is in lower case, and the
    hint is the one the design document describes unless a language name
    stands before the first prefixed token. *)
Theorem languageHint_first_matching_token (classAttr : string) :
  languageHint classAttr =
    match List.find (fun t => hasLanguagePrefix t || isLanguageName t)
                    (Js.split " " classAttr) with
    | Some t => if hasLanguagePrefix t then stripLanguagePrefix t else Js.toLowerCase t
    | None => EmptyString
    end
  /\ (forall t,
        List.find (fun t => hasLanguagePrefix t || isLanguageName t)
                  (Js.split " " classAttr) = Some t ->
        hasLanguagePrefix t = false ->
        isLowerCase (languageHint classAttr) = true)
  /\ ((forall t,
         List.find (fun t => hasLanguagePrefix t || isLanguageName t)
                   (Js.split " " classAttr) = Some t ->
         hasLanguagePrefix t = false ->
         List.find hasLanguagePrefix (Js.split " " classAttr) = None) ->
      languageHint classAttr = languageHintSpec classAttr).
Proof.
  unfold languageHint, languageHintSpec. rewrite languageOfClasses_find.
  split; [reflexivity | split].
  - intros t -> . unfold languageOfToken. intros ->.
    unfold isLowerCase. rewrite toLowerCase_idem. apply String.eqb_refl.
  - apply languageHint_agrees.
Qed.

Lemma languageHint_first_matching_token_witness :
  isLowerCase (languageHint "hljs Python") = true /\
  languageHint "hljs lang-JS css" = languageHintSpec "hljs lang-JS css".
Proof.
  split.
  - apply (languageHint_first_matching_token "hljs Python") with (t := "Python");
      reflexivity.
  - apply (languageHint_first_matching_token "hljs lang-JS css").
    intros t. vm_compute. intros [= <-]. discriminate.
Defined.

(** ** Navigation harvesting *)

Section HarvestProperties.

Import Harvester.

Variables (U : Harvester.UrlClass) (origin locationHref : string) (absolutize : string -> string).

Lemma harvestInv_empty : harvestInv U ([], ∅).
Proof. split; [constructor | intros x Hx; inversion Hx]. Qed.

Lemma collectLink_inv currentUrl st link :
  harvestInv U st -> harvestInv U (collectLink U origin absolutize currentUrl st link).
Proof.
  intros [Hnd Hseen]. unfold collectLink.
  destruct (_ || _ || _); [split; assumption |].
  destruct (negb _); [split; assumption |].
  destruct (_ && _); [split; assumption |].
  destruct (isDownload _); [split; assumption |].
  destruct (decide _) as [Hin | Hnotin]; [split; assumption |].
  split; simpl.
  - rewrite map_app. apply NoDup_app. split; [exact Hnd |]. split.
    + intros x Hx Hx'. simpl in Hx'. apply list_elem_of_singleton in Hx'. subst x.
      apply Hnotin, Hseen, Hx.
    + simpl. apply NoDup_singleton.
  - intros x. rewrite map_app, elem_of_app. simpl.
    rewrite list_elem_of_singleton. intros [Hx | ->].
    + apply elem_of_union_r, Hseen, Hx.
    + apply elem_of_union_l, elem_of_singleton. reflexivity.
Qed.

Lemma collectLinks_inv currentUrl links st :
  harvestInv U st -> harvestInv U (collectLinks U origin absolutize links st currentUrl).
Proof.
  unfold collectLinks. revert st.
  induction links as [| l links IH]; intros st H; simpl; [exact H |].
  apply IH, collectLink_inv, H.
Qed.

Lemma strategy1_inv d currentUrl sels st :
  harvestInv U st -> harvestInv U (strategy1 U origin absolutize d currentUrl sels st).
Proof.
  revert st. induction sels as [| sel sels IH]; intros st H; simpl; [exact H |].
  destruct (2 <? _)%nat; [| apply IH, H].
  destruct (3 <? _)%nat; [apply collectLinks_inv, H |].
  apply IH, collectLinks_inv, H.
Qed.

Lemma fold_inv {A} (step : harvest -> A -> harvest) (xs : list A) st :
  (forall s x, harvestInv U s -> harvestInv U (step s x)) ->
  harvestInv U st -> harvestInv U (fold_left step xs st).
Proof.
  intros Hstep. revert st. induction xs as [| x xs IH]; intros st H; simpl; auto.
Qed.

Lemma strategy2_inv d currentUrl st :
  harvestInv U st -> harvestInv U (strategy2 U origin absolutize d currentUrl st).
Proof.
  intros H. unfold strategy2. destruct (_ <? 3)%nat; [| exact H].
  apply fold_inv; [| exact H]. intros s nav Hs. unfold strategy2Step.
  destruct (isSkippableNav nav); [exact Hs |].
  destruct (5 <? _)%nat; [apply collectLinks_inv, Hs | exact Hs].
Qed.

Lemma strategy3_inv d currentUrl st :
  harvestInv U st -> harvestInv U (strategy3 U origin absolutize d currentUrl st).
Proof.
  intros H. unfold strategy3. destruct (_ <? 3)%nat; [| exact H].
  apply fold_inv; [| exact H]. intros s l Hs. unfold strategy3Step.
  destruct (mostlyInternal _ _); [apply collectLinks_inv, Hs | exact Hs].
Qed.

Lemma detectDocSections_distinct d :
  NoDup (map (normalizedUrlOf U) (detectDocSections U origin locationHref absolutize d)).
Proof.
  unfold detectDocSections.
  apply strategy3_inv, strategy2_inv, strategy1_inv, harvestInv_empty.
Qed.

End HarvestProperties.

Lemma normalizeUrl_unparsed (U : Harvester.UrlClass) u :
  Harvester.newURL U u = None -> Harvester.normalizeUrl U u = u.
Proof. unfold Harvester.normalizeUrl. intros ->. reflexivity. Qed.

Lemma normalizeUrl_parsed (U : Harvester.UrlClass) u p :
  Harvester.newURL U u = Some p ->
  let cleared := Harvester.setHash U p EmptyString in
  let path := Harvester.pathname U cleared in
  Harvester.normalizeUrl U u =
    Harvester.toString U
      (Harvester.setPathname U cleared
         (if Js.endsWith "/" path && (1 <? String.length path)%nat
          then Js.dropLast path else path)).
Proof. unfold Harvester.normalizeUrl. intros ->. reflexivity. Qed.

(** C5.  The links the harvester returns have pairwise distinct
    normalized addresses, for every class URL, document and location.
    Normalizing returns an address the constructor refuses as it is, and
    otherwise clears the fragment and cuts one final slash off a path
    longer than the root; the addresses [https://x.com/doc/] and
    [https://x.com/doc] have the same normalized address and are
    harvested as one link. *)
Theorem harvested_links_distinct_by_normalized_url :
  (forall U origin locationHref absolutize d,
     NoDup (map (normalizedUrlOf U)
                (Harvester.detectDocSections U origin locationHref absolutize d)))
  /\ (forall U u, Harvester.newURL U u = None -> Harvester.normalizeUrl U u = u)
  /\ (forall U u p, Harvester.newURL U u = Some p ->
        let cleared := Harvester.setHash U p EmptyString in
        let path := Harvester.pathname U cleared in
        Harvester.normalizeUrl U u =
          Harvester.toString U
            (Harvester.setPathname U cleared
               (if Js.endsWith "/" path && (1 <? String.length path)%nat
                then Js.dropLast path else path)))
  /\ Harvester.normalizeUrl sampleUrls "https://x.com/doc/" = "https://x.com/doc"
  /\ Harvester.normalizeUrl sampleUrls "https://x.com/doc" = "https://x.com/doc"
  /\ Harvester.normalizeUrl sampleUrls "https://x.com/doc#intro" = "https://x.com/doc"
  /\ Harvester.detectDocSections sampleUrls "https://x.com" "https://x.com/start"
       (fun h => h) slashPage =
       [ {| Harvester.title := "Doc"; Harvester.url := "https://x.com/doc/";
            Harvester.isCurrentPage := false |} ].
Proof.
  split; [| split; [| split; [| split; [| split; [| split]]]]].
  - intros. apply detectDocSections_distinct.
  - apply normalizeUrl_unparsed.
  - apply normalizeUrl_parsed.
  - reflexivity.
  - reflexivity.
  - reflexivity.
  - vm_compute. reflexivity.
Qed.

Lemma harvested_links_distinct_by_normalized_url_witness :
  Harvester.normalizeUrl sampleUrls "x.com/doc/#top" = "x.com/doc/#top" /\
  Harvester.normalizeUrl sampleUrls "https://x.com/a/b/?q=1#top" = "https://x.com/a/b?q=1".
Proof.
  destruct harvested_links_distinct_by_normalized_url as (_ & Hu & Hp & _).
  split.
  - apply (Hu sampleUrls). reflexivity.
  - rewrite (Hp sampleUrls "https://x.com/a/b/?q=1#top"
                {| SampleUrl.protocol := "https:"; SampleUrl.host := "x.com";
                   SampleUrl.pathname := "/a/b/"; SampleUrl.search := "?q=1";
                   SampleUrl.hash := "#top" |} eq_refl).
    reflexivity.
Defined.




Section DenseLists.

Import Harvester.

Variables (U : UrlClass) (origin : string) (absolutize : string -> string)
          (currentUrl : string).




End DenseLists.




(** ** The renderer works on a copy *)

Lemma list_max_le_elem (l : list nat) x : In x l -> (x <= list_max l)%nat.
Proof.
  induction l as [| y l IH]; simpl; [contradiction |].
  intros [-> | H]; [lia |]. specialize (IH H). lia.
Qed.

Lemma nodeIds_le_maxId n j : In j (nodeIds n) -> (j <= maxId n)%nat.
Proof.
  induction n as [i d | i k d | i t a cs IH] using node_ind; simpl.
  - intros [-> | []]. lia.
  - intros [-> | []]. lia.
  - intros [-> | H]; [lia |].
    apply in_flat_map in H. destruct H as (c & Hc & Hj).
    rewrite Forall_forall in IH.
    assert (Hle : (j <= maxId c)%nat) by (apply IH; [apply list_elem_of_In; exact Hc | exact Hj]).
    assert (Hm : (maxId c <= list_max (map maxId cs))%nat).
    { apply list_max_le_elem, in_map, Hc. }
    lia.
Qed.

Lemma nodeId_in_nodeIds n : In (nodeId n) (nodeIds n).
Proof. destruct n; simpl; auto. Qed.

Lemma removeById_absent i n : ~ In i (nodeIds n) -> removeById i n = n.
Proof.
  induction n as [j d | j k d | j t a cs IH] using node_ind; simpl;
    [reflexivity | reflexivity |].
  intros Hni. f_equal.
  assert (Hcs : forall c, In c cs -> ~ In i (nodeIds c)).
  { intros c Hc Hi. apply Hni. right. apply in_flat_map. eauto. }
  clear Hni. induction cs as [| c cs IHcs]; simpl; [reflexivity |].
  inversion IH as [| ? ? Hc HF]; subst.
  destruct (Nat.eqb_spec (nodeId c) i) as [Heq | Hne].
  - exfalso. apply (Hcs c (or_introl eq_refl)). rewrite <- Heq. apply nodeId_in_nodeIds.
  - simpl. rewrite Hc by (apply Hcs; left; reflexivity).
    f_equal. apply IHcs; [exact HF |]. intros c' Hc'. apply Hcs. right. exact Hc'.
Qed.

Lemma removeById_ids i n j : In j (nodeIds (removeById i n)) -> In j (nodeIds n).
Proof.
  induction n as [k d | k o d | k t a cs IH] using node_ind; simpl; auto.
  intros [-> | H]; [left; reflexivity | right].
  apply in_flat_map in H. destruct H as (c' & Hc' & Hj).
  apply in_flat_map in Hc'. destruct Hc' as (c & Hc & Hin).
  destruct (nodeId c =? i)%nat; [destruct Hin |].
  destruct Hin as [<- | []].
  apply in_flat_map. exists c. split; [exact Hc |].
  rewrite Forall_forall in IH. apply IH; [apply list_elem_of_In; exact Hc | exact Hj].
Qed.

Lemma cloneNode_fresh base n : freshFrom base (cloneNode base n).
Proof.
  unfold freshFrom.
  induction n as [i d | i k d | i t a cs IH] using node_ind; simpl.
  - repeat constructor. lia.
  - repeat constructor. lia.
  - constructor; [lia |]. apply Forall_flat_map, Forall_map. exact IH.
Qed.

Lemma selectFrom_ids sel anc n el :
  In el (selectFrom sel anc n) -> In (nodeId (snd el)) (nodeIds n).
Proof.
  revert anc. induction n as [i d | i k d | i t a cs IH] using node_ind; intros anc; simpl;
    [contradiction | contradiction |].
  rewrite in_app_iff. intros [H | H].
  - destruct (matchSelector sel anc (t, a)); [| destruct H].
    destruct H as [<- | []]. left. reflexivity.
  - right. apply in_flat_map in H. destruct H as (c & Hc & Hel).
    apply in_flat_map. exists c. split; [exact Hc |].
    rewrite Forall_forall in IH. eapply IH; [apply list_elem_of_In; exact Hc | exact Hel].
Qed.

Lemma querySelectorAll_ids sel n el :
  In el (querySelectorAll sel (atTop n)) -> In (nodeId el) (nodeIds n).
Proof.
  unfold querySelectorAll, querySelectorAllLoc. simpl.
  destruct n as [i d | i k d | i t a cs]; simpl; [contradiction | contradiction |].
  intros H. apply in_map_iff in H. destruct H as (l & <- & Hl).
  apply in_flat_map in Hl. destruct Hl as (c & Hc & Hel).
  right. apply in_flat_map. exists c. split; [exact Hc |].
  eapply selectFrom_ids. exact Hel.
Qed.

Section Frame.

Variables (st0 : store) (base : nat).
Hypothesis base_above : (maxIdStore st0 < base)%nat.

Lemma store_lacks_fresh i : (base <= i)%nat -> map (removeById i) st0 = st0.
Proof.
  intros Hi. rewrite <- (map_id st0) at 2. apply map_ext_in.
  intros t Ht. apply removeById_absent. intros Hin.
  apply nodeIds_le_maxId in Hin.
  assert (maxId t <= maxIdStore st0)%nat by (apply list_max_le_elem, in_map, Ht).
  lia.
Qed.

Lemma removeNode_untouched st el :
  (base <= nodeId el)%nat -> untouchedBy st0 base st -> untouchedBy st0 base (removeNode st el).
Proof.
  intros Hel [Hst Hfresh]. unfold removeNode. split; simpl.
  - rewrite Hst. apply store_lacks_fresh, Hel.
  - unfold freshFrom in *. rewrite Forall_forall in Hfresh. apply Forall_forall.
    intros j Hj. apply Hfresh. apply list_elem_of_In.
    apply list_elem_of_In in Hj. eapply removeById_ids, Hj.
Qed.

Lemma removeAll_untouched els st :
  Forall (fun el => (base <= nodeId el)%nat) els ->
  untouchedBy st0 base st -> untouchedBy st0 base (fold_left removeNode els st).
Proof.
  revert st. induction els as [| el els IH]; intros st Hels H; simpl; [exact H |].
  inversion Hels; subst. apply IH; [assumption |].
  apply removeNode_untouched; assumption.
Qed.

Lemma removeMatching_untouched st sel :
  untouchedBy st0 base st -> untouchedBy st0 base (removeMatching st sel).
Proof.
  intros H. unfold removeMatching. apply removeAll_untouched; [| exact H].
  destruct H as [_ Hfresh]. unfold freshFrom in Hfresh.
  rewrite Forall_forall in Hfresh. apply Forall_forall.
  intros el Hel. apply Hfresh.
  apply list_elem_of_In. apply querySelectorAll_ids with (sel := sel).
  apply list_elem_of_In. exact Hel.
Qed.

Lemma removeSelectors_untouched sels st :
  untouchedBy st0 base st -> untouchedBy st0 base (fold_left removeMatching sels st).
Proof.
  revert st. induction sels as [| sel sels IH]; intros st H; simpl; [exact H |].
  apply IH, removeMatching_untouched, H.
Qed.

End Frame.

Lemma cloneAndPrune_store st container :
  fst (cloneAndPrune st container) = st.
Proof.
  unfold cloneAndPrune.
  set (base := S (Nat.max (maxIdStore st) (maxId container))).
  apply (removeSelectors_untouched st base); [lia |].
  split; [reflexivity | apply cloneNode_fresh].
Qed.

Lemma cloneNode_same_content base n : eraseIds (cloneNode base n) = eraseIds n.
Proof.
  induction n as [i d | i k d | i t a cs IH] using node_ind; [reflexivity | reflexivity |].
  cbn [cloneNode eraseIds]. f_equal. rewrite map_map.
  apply map_ext_in. intros c Hc. rewrite Forall_forall in IH.
  apply IH, list_elem_of_In, Hc.
Qed.

(** C6.  convertToMarkdown, in the content script and in the copy of the
    MCP server, leaves every live tree as it was: the clone has the content
    of the region and identities of its own, and the removals act on it
    alone, whether the rendering succeeds or not.  Run on the region itself
    instead of a clone, the same removals change the caller's tree. *)
Theorem convertToMarkdown_leaves_trees_unchanged
    (resolveUrl : string -> option string) (st : store) (container : node) :
  fst (convertToMarkdown resolveUrl st container) = st
  /\ fst (Mcp.convertToMarkdown resolveUrl st container) = st
  /\ snd (convertToMarkdown resolveUrl st container) =
       processNode resolveUrl None (snd (cloneAndPrune st container))
  /\ (forall base, eraseIds (cloneNode base container) = eraseIds container)
  /\ fst (fold_left removeMatching removeSelectors ([navRegion], navRegion)) <> [navRegion].
Proof.
  unfold convertToMarkdown, Mcp.convertToMarkdown.
  pose proof (cloneAndPrune_store st container) as H.
  destruct (cloneAndPrune st container) as [st' clone]. simpl in *.
  split; [exact H | split; [exact H | split; [reflexivity | split]]].
  - intros base. apply cloneNode_same_content.
  - vm_compute. discriminate.
Qed.

(** ** Code blocks *)

(** C2.  On a region that holds one [pre] around
    [<code class="language-python">print(1)</code>] the renderer writes the
    fenced block, and the collector returns the record twice: the selector
    [pre code, pre] matches the [pre] and the [code], and both lead to the
    same [code] element. *)
Theorem pre_with_code_is_collected_twice (resolveUrl : string -> option string) :
  processNode resolveUrl None pythonRegion =
    Some (nl2 +:+ "```python" +:+ Js.nl +:+ "print(1)" +:+ Js.nl +:+ "```" +:+ nl2)
  /\ snd (convertToMarkdown resolveUrl [pythonRegion] pythonRegion) =
       Some (nl2 +:+ "```python" +:+ Js.nl +:+ "print(1)" +:+ Js.nl +:+ "```" +:+ nl2)
  /\ querySelectorAll preCodeSel (atTop pythonRegion) =
       [ Element 2 "pre" []
           [ Element 3 "code" [("class", "language-python")] [Text 4 "print(1)"] ];
         Element 3 "code" [("class", "language-python")] [Text 4 "print(1)"] ]
  /\ extractCodeBlocks (atTop pythonRegion) = [pythonBlock; pythonBlock].
Proof. repeat split; reflexivity. Qed.

(** ** The collected lists and the removal *)

Lemma matchSelector_tags ts anc e : matchSelector (tags ts) anc e = inList (fst e) ts.
Proof.
  unfold matchSelector, inList, tags.
  induction ts as [| t ts IH]; simpl; [reflexivity |].
  rewrite IH. unfold matchComplex. simpl.
  rewrite !andb_true_r, (String.eqb_sym t (fst e)). reflexivity.
Qed.

Lemma filter_app_bool {A} (f : A -> bool) (l k : list A) :
  List.filter f (l ++ k) = List.filter f l ++ List.filter f k.
Proof.
  induction l as [| x l IH]; simpl; [reflexivity |].
  destruct (f x); simpl; rewrite IH; reflexivity.
Qed.

Lemma selectFrom_tags ts anc n :
  map snd (selectFrom (tags ts) anc n) =
  List.filter (fun x => inList (tagOf x) ts) (subtreeElements n).
Proof.
  revert anc. induction n as [i d | i k d | i t a cs IH] using node_ind; intros anc;
    [reflexivity | reflexivity |].
  cbn [selectFrom subtreeElements List.filter tagOf].
  rewrite matchSelector_tags. cbn [fst].
  rewrite map_app.
  replace (map snd (flat_map (selectFrom (tags ts) ((t, a) :: anc)) cs))
    with (List.filter (fun x => inList (tagOf x) ts) (flat_map subtreeElements cs)).
  - destruct (inList t ts); reflexivity.
  - induction cs as [| c cs IHcs]; [reflexivity |].
    inversion IH as [| ? ? Hc HF]; subst.
    cbn [flat_map]. rewrite filter_app_bool, map_app, Hc, IHcs by exact HF.
    reflexivity.
Qed.

Lemma querySelectorAll_tags ts el :
  querySelectorAll (tags ts) el =
  List.filter (fun x => inList (tagOf x) ts) (descendantElements (snd el)).
Proof.
  unfold querySelectorAll, querySelectorAllLoc, descendantElements.
  destruct (snd el) as [i d | i k d | i t a cs]; [reflexivity | reflexivity |].
  cbn [childNodes]. generalize ((t, a) :: fst el). intros anc.
  induction cs as [| c cs IH]; [reflexivity |].
  cbn [flat_map]. rewrite map_app, filter_app_bool, selectFrom_tags.
  f_equal. exact IH.
Qed.



Lemma selectFrom_in sel anc n el :
  In el (selectFrom sel anc n) <->
  In el (subtreeLocated anc n) /\ matchSelector sel (fst el) (einfoOf (snd el)) = true.
Proof.
  revert anc. induction n as [i d | i k d | i t a cs IH] using node_ind; intros anc;
    [simpl; tauto | simpl; tauto |].
  cbn [selectFrom subtreeLocated]. rewrite in_app_iff, !in_flat_map.
  split.
  - intros [H | (c & Hc & H)].
    + destruct (matchSelector sel anc (t, a)) eqn:Hm; [| destruct H].
      destruct H as [<- | []]. split; [left; reflexivity | exact Hm].
    + rewrite Forall_forall in IH.
      apply (IH c) in H; [| apply list_elem_of_In; exact Hc].
      destruct H as [H Hm]. split; [| exact Hm].
      right. apply in_flat_map. eauto.
  - intros [[<- | H] Hm].
    + left. change (matchSelector sel anc (t, a) = true) in Hm.
      rewrite Hm. left. reflexivity.
    + right. apply in_flat_map in H. destruct H as (c & Hc & H).
      exists c. split; [exact Hc |].
      rewrite Forall_forall in IH. apply (IH c); [apply list_elem_of_In; exact Hc |].
      split; assumption.
Qed.

Lemma querySelectorAllLoc_in sel el x :
  In x (querySelectorAllLoc sel el) <->
  In x (descendantsLocated el) /\ matchSelector sel (fst x) (einfoOf (snd x)) = true.
Proof.
  unfold querySelectorAllLoc, descendantsLocated.
  destruct (snd el) as [i d | i k d | i t a cs]; [simpl; tauto | simpl; tauto |].
  rewrite !in_flat_map. split.
  - intros (c & Hc & H). apply selectFrom_in in H. destruct H as [H Hm].
    split; [| exact Hm]. exists c. split; assumption.
  - intros [(c & Hc & H) Hm].
    exists c. split; [exact Hc |]. apply selectFrom_in. split; assumption.
Qed.


(** *** What the removal keeps *)














Lemma heading_elements el :
  querySelectorAll headingSel el =
  List.filter isHeadingElement (descendantElements (snd el)).
Proof. apply querySelectorAll_tags. Qed.




(** * Further properties of the code *)

(** ** Trimming *)

Lemma trimStart_head s : headIsSpace (Js.trimStart s) = false.
Proof.
  induction s as [| c r IH]; [reflexivity |].
  cbn [Js.trimStart]. destruct (Js.isSpace c) eqn:E; [exact IH |].
  cbn [headIsSpace]. exact E.
Qed.

Lemma trimStart_clean s : headIsSpace s = false -> Js.trimStart s = s.
Proof. destruct s as [| c r]; [reflexivity |]. cbn. intros ->. reflexivity. Qed.

Lemma trimEnd_cons c r :
  Js.trimEnd (String c r) =
  match Js.trimEnd r with
  | EmptyString => if Js.isSpace c then EmptyString else String c EmptyString
  | String x y => String c (String x y)
  end.
Proof. cbn [Js.trimEnd]. destruct (Js.trimEnd r); reflexivity. Qed.

Lemma trimEnd_idem s : Js.trimEnd (Js.trimEnd s) = Js.trimEnd s.
Proof.
  induction s as [| c r IH]; [reflexivity |].
  rewrite trimEnd_cons. destruct (Js.trimEnd r) as [| x y] eqn:E.
  - destruct (Js.isSpace c) eqn:Hc; [reflexivity |].
    rewrite trimEnd_cons. cbn [Js.trimEnd]. rewrite Hc. reflexivity.
  - rewrite trimEnd_cons, IH. reflexivity.
Qed.

Lemma trimEnd_head s : headIsSpace s = false -> headIsSpace (Js.trimEnd s) = false.
Proof.
  destruct s as [| c r]; [reflexivity |]. cbn [headIsSpace]. intros Hc.
  rewrite trimEnd_cons. destruct (Js.trimEnd r); [rewrite Hc |]; cbn; auto.
Qed.

Lemma trim_idem s : Js.trim (Js.trim s) = Js.trim s.
Proof.
  unfold Js.trim.
  rewrite (trimStart_clean (Js.trimEnd (Js.trimStart s))).
  - apply trimEnd_idem.
  - apply trimEnd_head, trimStart_head.
Qed.

Lemma trim_head s : headIsSpace (Js.trim s) = false.
Proof. apply trimEnd_head, trimStart_head. Qed.

(** ** Headings and code blocks *)

Lemma parseLevel_heading t :
  inList t ["h1"; "h2"; "h3"; "h4"; "h5"; "h6"] = true ->
  (1 <= parseLevel t <= 6)%nat.
Proof.
  unfold inList. cbn [existsb]. rewrite !orb_true_iff.
  intros [H | [H | [H | [H | [H | [H | H]]]]]]; try discriminate;
    apply String.eqb_eq in H; subst t;
    match goal with
    | |- context [parseLevel ?x] =>
        let v := eval vm_compute in (parseLevel x) in change (parseLevel x) with v
    end; lia.
Qed.

(** X1.  The records of extractHeadings: one for each h1..h6 descendant, with
    a level between 1 and 6 and a text without white space at its ends. *)
Theorem extractHeadings_records (container : located) :
  length (extractHeadings container) =
    length (List.filter isHeadingElement (descendantElements (snd container)))
  /\ Forall (fun h => (1 <= level h <= 6)%nat
                      /\ Js.trim (text h) = text h
                      /\ headIsSpace (text h) = false)
            (extractHeadings container).
Proof.
  unfold extractHeadings. rewrite heading_elements, length_map.
  split; [reflexivity |].
  apply Forall_map, Forall_forall. intros el Hel.
  apply list_elem_of_In, filter_In in Hel. destruct Hel as [_ Hh].
  cbn [level text headingOf]. split; [| split].
  - apply parseLevel_heading, Hh.
  - apply trim_idem.
  - apply trim_head.
Qed.

Lemma hasChar_app c a b : hasChar c (a +:+ b) = hasChar c a || hasChar c b.
Proof.
  induction a as [| x a IH]; [reflexivity |].
  rewrite append_cons. cbn [hasChar]. rewrite IH, orb_assoc. reflexivity.
Qed.

Lemma splitGo_pieces sep cur s :
  hasChar sep cur = false ->
  Forall (fun t => hasChar sep t = false) (Js.splitGo sep cur s).
Proof.
  revert cur. induction s as [| c r IH]; intros cur Hcur; cbn [Js.splitGo].
  - constructor; [exact Hcur | constructor].
  - destruct (Ascii.eqb c sep) eqn:E.
    + constructor; [exact Hcur | apply IH; reflexivity].
    + apply IH. rewrite hasChar_app, Hcur. cbn [hasChar]. rewrite E. reflexivity.
Qed.

Lemma hasChar_dropChars c n s : hasChar c s = false -> hasChar c (Js.dropChars n s) = false.
Proof.
  revert s. induction n as [| n IH]; intros s H; [exact H |].
  destruct s as [| x r]; [reflexivity |].
  cbn [Js.dropChars]. apply IH. cbn [hasChar] in H.
  apply orb_false_iff in H. tauto.
Qed.

Lemma lowerChar_space x : Ascii.eqb (Js.lowerChar x) " " = Ascii.eqb x " ".
Proof. destruct x as [[] [] [] [] [] [] [] []]; reflexivity. Qed.

Lemma hasChar_space_toLowerCase s : hasChar " " (Js.toLowerCase s) = hasChar " " s.
Proof.
  induction s as [| x r IH]; [reflexivity |].
  cbn [Js.toLowerCase hasChar]. rewrite lowerChar_space, IH. reflexivity.
Qed.

Lemma languageOfClasses_no_space classes :
  Forall (fun t => hasChar " " t = false) classes ->
  hasChar " " (languageOfClasses classes) = false.
Proof.
  induction 1 as [| c rest Hc _ IH]; [reflexivity |].
  cbn [languageOfClasses].
  destruct (Js.startsWith "language-" c) eqn:H1.
  - rewrite (replaceFirst_prefix "language-" c H1). apply hasChar_dropChars, Hc.
  - destruct (Js.startsWith "lang-" c) eqn:H2.
    + rewrite (replaceFirst_prefix "lang-" c H2). apply hasChar_dropChars, Hc.
    + destruct (inList (Js.toLowerCase c) languageNames).
      * rewrite hasChar_space_toLowerCase. exact Hc.
      * exact IH.
Qed.

Lemma detectLanguageOfClasses_no_space classes :
  Forall (fun t => hasChar " " t = false) classes ->
  hasChar " " (detectLanguageOfClasses classes) = false.
Proof.
  induction 1 as [| c rest Hc _ IH]; [reflexivity |].
  cbn [detectLanguageOfClasses].
  destruct (Js.startsWith "language-" c) eqn:H1.
  - rewrite (replaceFirst_prefix "language-" c H1). apply hasChar_dropChars, Hc.
  - destruct (Js.startsWith "lang-" c) eqn:H2.
    + rewrite (replaceFirst_prefix "lang-" c H2). apply hasChar_dropChars, Hc.
    + exact IH.
Qed.

Lemma length_pos_nonempty (s : string) : (0 <? String.length s)%nat = true -> s <> EmptyString.
Proof. destruct s; [discriminate | discriminate]. Qed.

(** X2.  Every record of extractCodeBlocks has a code that is not empty
    and has no white space at its ends, and a language tag without a
    space; the copy of the MCP server returns the same codes in the same
    order, with the same guarantees. *)
Theorem extractCodeBlocks_records (container : located) :
  Forall (fun cb => code cb <> EmptyString
                    /\ Js.trim (code cb) = code cb
                    /\ hasChar " " (language cb) = false)
         (extractCodeBlocks container)
  /\ Forall (fun cb => code cb <> EmptyString
                       /\ Js.trim (code cb) = code cb
                       /\ hasChar " " (language cb) = false)
            (Mcp.extractCodeBlocks container)
  /\ map code (Mcp.extractCodeBlocks container) = map code (extractCodeBlocks container).
Proof.
  unfold extractCodeBlocks, Mcp.extractCodeBlocks.
  generalize (querySelectorAll preCodeSel container). intros els.
  split; [| split].
  - apply Forall_flat_map, Forall_forall. intros el _.
    unfold codeBlockOf.
    destruct (0 <? String.length (Js.trim (textContent (codeElementOf el))))%nat eqn:E;
      [| constructor].
    constructor; [| constructor]. cbn [code language]. split; [| split].
    + apply length_pos_nonempty, E.
    + apply trim_idem.
    + apply languageOfClasses_no_space, splitGo_pieces. reflexivity.
  - apply Forall_flat_map, Forall_forall. intros el _.
    unfold Mcp.codeBlockOf.
    destruct (0 <? String.length (Js.trim (textContent (codeElementOf el))))%nat eqn:E;
      [| constructor].
    constructor; [| constructor]. cbn [code language]. split; [| split].
    + apply length_pos_nonempty, E.
    + apply trim_idem.
    + apply detectLanguageOfClasses_no_space, splitGo_pieces. reflexivity.
  - induction els as [| el els IH]; [reflexivity |].
    cbn [flat_map]. rewrite !map_app, IH. f_equal.
    unfold codeBlockOf, Mcp.codeBlockOf.
    destruct (0 <? String.length (Js.trim (textContent (codeElementOf el))))%nat;
      reflexivity.
Qed.

(** ** The density search and the choice of the region *)

Lemma largest_fold_best cands best m :
  (fold_left largestStep cands (best, m) = (best, m)
   /\ forall x, In x cands -> isSkippableElement (snd x) = false ->
                (score (snd x) <= m)%nat)
  \/ (exists l1 el l2,
        cands = l1 ++ el :: l2
        /\ fold_left largestStep cands (best, m) = (Some el, score (snd el))
        /\ isSkippableElement (snd el) = false
        /\ (m < score (snd el))%nat
        /\ (forall x, In x l1 -> isSkippableElement (snd x) = false ->
                      (score (snd x) < score (snd el))%nat)
        /\ (forall x, In x l2 -> isSkippableElement (snd x) = false ->
                      (score (snd x) <= score (snd el))%nat)).
Proof.
  revert best m. induction cands as [| x cands IH]; intros best m.
  - left. split; [reflexivity | intros x []].
  - cbn [fold_left]. unfold largestStep at 2 4. cbn [fst snd].
    destruct (isSkippableElement (snd x)) eqn:Hskip.
    + destruct (IH best m) as [[Hf Hle] | (l1 & el & l2 & -> & Hf & Hns & Hm & H1 & H2)].
      * left. split; [exact Hf |]. intros y [<- | Hy] Hy'; [congruence | auto].
      * right. exists (x :: l1), el, l2. repeat split; auto.
        intros y [<- | Hy] Hy'; [congruence | auto].
    + destruct (m <? score (snd x))%nat eqn:Hlt.
      * apply Nat.ltb_lt in Hlt.
        destruct (IH (Some x) (score (snd x)))
          as [[Hf Hle] | (l1 & el & l2 & -> & Hf & Hns & Hm & H1 & H2)].
        -- right. exists [], x, cands. repeat split; auto. intros y [].
        -- right. exists (x :: l1), el, l2. repeat split; auto; [lia |].
           intros y [<- | Hy] Hy'; auto.
      * apply Nat.ltb_ge in Hlt.
        destruct (IH best m) as [[Hf Hle] | (l1 & el & l2 & -> & Hf & Hns & Hm & H1 & H2)].
        -- left. split; [exact Hf |]. intros y [<- | Hy] Hy'; auto.
        -- right. exists (x :: l1), el, l2. repeat split; auto.
           intros y [<- | Hy] Hy'; [lia | auto].
Qed.

(** X3.  findLargestContentArea returns nothing exactly when every [div]
    and [section] is skippable (an element without text still scores 1);
    otherwise it returns a candidate that is not skippable, whose score no
    other such candidate exceeds and no earlier one reaches. *)
Theorem findLargestContentArea_best (d : document) :
  (findLargestContentArea d = None <->
   Forall (fun el => isSkippableElement (snd el) = true)
          (docQuerySelectorAll (tags ["div"; "section"]) d))
  /\ (forall el, findLargestContentArea d = Some el ->
        exists l1 l2,
          docQuerySelectorAll (tags ["div"; "section"]) d = l1 ++ el :: l2
          /\ isSkippableElement (snd el) = false
          /\ (forall x, In x l1 -> isSkippableElement (snd x) = false ->
                        (score (snd x) < score (snd el))%nat)
          /\ (forall x, In x l2 -> isSkippableElement (snd x) = false ->
                        (score (snd x) <= score (snd el))%nat)).
Proof.
  split; [apply findLargestContentArea_none |].
  intros el. unfold findLargestContentArea.
  destruct (largest_fold_best (docQuerySelectorAll (tags ["div"; "section"]) d) None 0)
    as [[Hf _] | (l1 & e & l2 & Hc & Hf & Hns & _ & H1 & H2)]; rewrite Hf; cbn [fst].
  - discriminate.
  - intros [= <-]. exists l1, l2. auto.
Qed.

Lemma findLargestContentArea_best_witness :
  exists l1 l2,
    docQuerySelectorAll (tags ["div"; "section"]) twoColumnPage =
      l1 ++ ([("body", []); ("html", [])],
             Element 5 "div" [("id", "text")]
               [Element 6 "p" [] [Text 7 "Some words to read"]]) :: l2.
Proof.
  destruct (findLargestContentArea_best twoColumnPage) as [_ H].
  destruct (H ([("body", []); ("html", [])],
               Element 5 "div" [("id", "text")]
                 [Element 6 "p" [] [Text 7 "Some words to read"]]) eq_refl)
    as (l1 & l2 & Hc & _).
  exists l1, l2. exact Hc.
Defined.

Lemma firstSubstantial_app d l1 l2 :
  firstSubstantial d (l1 ++ l2) =
  match firstSubstantial d l1 with
  | Some el => Some el
  | None => firstSubstantial d l2
  end.
Proof.
  induction l1 as [| sel l1 IH]; [reflexivity |].
  cbn [app firstSubstantial].
  destruct (docQuerySelector sel d) as [el |]; [| exact IH].
  destruct (hasSubstantialContent (snd el)); [reflexivity | exact IH].
Qed.

(** X4.  getMainContent goes through its selectors in order: it returns
    the first element matched by a selector when that element has more
    than 50 words and no earlier selector of the list has such a first
    match, whatever the later selectors and the density search would
    give. *)
Theorem getMainContent_selector_priority (d : document)
    (before after : list selector) (sel : selector) (el : located) :
  mainSelectors = before ++ sel :: after ->
  (forall s e, In s before -> docQuerySelector s d = Some e ->
               hasSubstantialContent (snd e) = false) ->
  docQuerySelector sel d = Some el ->
  hasSubstantialContent (snd el) = true ->
  getMainContent d = el /\ (50 < wordCount (snd el))%nat.
Proof.
  intros Hsplit Hbefore Hq Hs. split.
  - unfold getMainContent. rewrite Hsplit, firstSubstantial_app.
    rewrite (firstSubstantial_none d before Hbefore).
    cbn [firstSubstantial]. rewrite Hq, Hs. reflexivity.
  - apply Nat.ltb_lt. exact Hs.
Qed.

(** X5.  The MCP server chooses the region the content script chooses,
    unless none of the twelve common selectors has a first match of more
    than 50 words and one of its four own selectors has. *)
Theorem mcp_getMainContent_agrees (d : document) :
  (firstSubstantial d mainSelectors <> None \/
   forall s e, In s [ cls "theme-doc-markdown"; cls "vp-doc"; cls "md-content"; cls "document" ] ->
               docQuerySelector s d = Some e -> hasSubstantialContent (snd e) = false) ->
  Mcp.getMainContent d = getMainContent d.
Proof.
  intros H. unfold Mcp.getMainContent, getMainContent, Mcp.selectors.
  rewrite firstSubstantial_app.
  destruct (firstSubstantial d mainSelectors) as [el |] eqn:E; [reflexivity |].
  destruct H as [H | H]; [congruence |].
  rewrite (firstSubstantial_none d _ H). reflexivity.
Qed.

Lemma getMainContent_selector_priority_witness :
  getMainContent articlePage =
    ([("body", []); ("html", [])], Element 5 "article" [] [Text 6 sixtyWords])
  /\ (50 < wordCount (Element 5 "article" [] [Text 6 sixtyWords]))%nat.
Proof.
  apply (getMainContent_selector_priority articlePage
           [tags ["main"]] (List.tl (List.tl mainSelectors)) (tags ["article"])).
  - reflexivity.
  - intros s e [<- | []]. vm_compute. intros [= <-]. reflexivity.
  - reflexivity.
  - reflexivity.
Defined.

Lemma mcp_getMainContent_agrees_witness :
  Mcp.getMainContent articlePage = getMainContent articlePage.
Proof.
  apply (mcp_getMainContent_agrees articlePage).
  left. vm_compute. discriminate.
Defined.

(** ** The page title *)

(** X6.  getPageTitle prefers a non-empty [og:title], and is not empty
    as soon as the title of the document is not: an empty [og:title] and a
    first [h1] without text fall through to it. *)
Theorem getPageTitle_priority (documentTitle : string) (d : document) :
  (forall m c,
     docQuerySelector [[[STag "meta"; SAttrEq "property" "og:title"]]] d = Some m ->
     getAttribute "content" (attsOf (snd m)) = Some c ->
     c <> EmptyString ->
     getPageTitle documentTitle d = c)
  /\ (documentTitle <> EmptyString -> getPageTitle documentTitle d <> EmptyString).
Proof.
  unfold getPageTitle. split.
  - intros m c -> -> Hc. destruct (String.eqb_spec c EmptyString); [contradiction | reflexivity].
  - intros Ht.
    assert (Hh : match docQuerySelector (tags ["h1"]) d with
                 | Some h => if String.eqb (Js.trim (textContent (snd h))) EmptyString
                             then documentTitle else Js.trim (textContent (snd h))
                 | None => documentTitle
                 end <> EmptyString).
    { destruct (docQuerySelector (tags ["h1"]) d) as [h |]; [| exact Ht].
      destruct (String.eqb_spec (Js.trim (textContent (snd h))) EmptyString); assumption. }
    destruct (docQuerySelector [[[STag "meta"; SAttrEq "property" "og:title"]]] d) as [m |];
      [| exact Hh].
    destruct (getAttribute "content" (attsOf (snd m))) as [c |]; [| exact Hh].
    destruct (String.eqb_spec c EmptyString); assumption.
Qed.

Lemma getPageTitle_priority_witness :
  getPageTitle "Docs" navPage <> EmptyString.
Proof.
  apply (getPageTitle_priority "Docs" navPage). discriminate.
Defined.

(** ** Failure of the rendering *)

Lemma sequence_total {A} (xs : list (option A)) :
  Forall (fun x => x <> None) xs -> sequence xs <> None.
Proof.
  induction 1 as [| x xs Hx _ IH]; cbn [sequence]; [discriminate |].
  destruct x as [x |]; [| contradiction].
  destruct (sequence xs); [discriminate | contradiction].
Qed.

Lemma sequence_fails {A} (xs : list (option A)) : In None xs -> sequence xs = None.
Proof.
  induction xs as [| x xs IH]; [intros [] |].
  intros [-> | H]; [reflexivity |].
  cbn [sequence]. destruct x; [| reflexivity]. rewrite (IH H). reflexivity.
Qed.

Lemma renderElement_total r parent el children items :
  (forall h, r h <> None) -> renderElement r parent el children items <> None.
Proof.
  intros Hr. unfold renderElement.
  repeat match goal with
         | |- (if ?c then _ else _) <> None => destruct c
         | |- match ?x with _ => _ end <> None =>
             let E := fresh in destruct x eqn:E
         | |- Some _ <> None => discriminate
         | H : r ?h = None |- _ => exfalso; exact (Hr h H)
         end.
Qed.

Lemma mcp_renderElement_total r parent el children items :
  (forall h, r h <> None) -> Mcp.renderElement r parent el children items <> None.
Proof.
  intros Hr. unfold Mcp.renderElement.
  repeat match goal with
         | |- (if ?c then _ else _) <> None => destruct c
         | |- match ?x with _ => _ end <> None =>
             let E := fresh in destruct x eqn:E
         | |- Some _ <> None => discriminate
         | H : r ?h = None |- _ => exfalso; exact (Hr h H)
         end.
Qed.

Lemma mcp_processNode_element r parent i t a cs :
  Mcp.processNode r parent (Element i t a cs) =
  if isHidden a then Some EmptyString
  else match sequence (map (Mcp.processNode r (Some t)) cs) with
       | None => None
       | Some parts =>
           match sequence (flat_map (fun c => if isLi c
                                              then [Mcp.processNode r (Some t) c]
                                              else []) cs) with
           | None => None
           | Some items =>
               Mcp.renderElement r parent (Element i t a cs) (Js.joinAll parts) items
           end
       end.
Proof. reflexivity. Qed.

Lemma processNode_total r :
  (forall h, r h <> None) -> forall n parent, processNode r parent n <> None.
Proof.
  intros Hr. induction n as [i d | i k d | i t a cs IH] using node_ind; intros parent;
    [discriminate | discriminate |].
  rewrite processNode_element. destruct (isHidden a); [discriminate |].
  destruct (sequence (map (processNode r (Some t)) cs)) as [parts |] eqn:E1.
  - destruct (sequence (flat_map _ cs)) as [items |] eqn:E2.
    + apply renderElement_total, Hr.
    + exfalso. revert E2. apply sequence_total.
      apply Forall_flat_map. eapply Forall_impl; [exact IH |].
      intros c Hc. cbn beta. destruct (isLi c); constructor; [apply Hc | constructor].
  - exfalso. revert E1. apply sequence_total, Forall_map.
    eapply Forall_impl; [exact IH |]. intros c Hc. apply Hc.
Qed.

Lemma mcp_processNode_total r :
  (forall h, r h <> None) -> forall n parent, Mcp.processNode r parent n <> None.
Proof.
  intros Hr. induction n as [i d | i k d | i t a cs IH] using node_ind; intros parent;
    [discriminate | discriminate |].
  rewrite mcp_processNode_element. destruct (isHidden a); [discriminate |].
  destruct (sequence (map (Mcp.processNode r (Some t)) cs)) as [parts |] eqn:E1.
  - destruct (sequence (flat_map _ cs)) as [items |] eqn:E2.
    + apply mcp_renderElement_total, Hr.
    + exfalso. revert E2. apply sequence_total.
      apply Forall_flat_map. eapply Forall_impl; [exact IH |].
      intros c Hc. cbn beta. destruct (isLi c); constructor; [apply Hc | constructor].
  - exfalso. revert E1. apply sequence_total, Forall_map.
    eapply Forall_impl; [exact IH |]. intros c Hc. apply Hc.
Qed.

(** X7.  When every address resolves, rendering never fails: processNode
    of both copies returns a text for every node, and extractPage returns
    a record for every document, with the location and the time stamp it
    was given. *)
Theorem rendering_succeeds_when_urls_resolve
    (r : string -> option string) (documentTitle locationHref now : string)
    (d : document) :
  (forall h, r h <> None) ->
  (forall n parent, processNode r parent n <> None)
  /\ (forall n parent, Mcp.processNode r parent n <> None)
  /\ exists e, snd (extractPage r documentTitle locationHref now d) = Some e
               /\ url e = locationHref /\ extractedAt e = now
               /\ title e = getPageTitle documentTitle d.
Proof.
  intros Hr. split; [apply processNode_total, Hr |].
  split; [apply mcp_processNode_total, Hr |].
  unfold extractPage, convertToMarkdown.
  destruct (cloneAndPrune [documentElement d] (snd (getMainContent d))) as [st' clone].
  destruct (processNode r None clone) as [md |] eqn:E.
  - eexists. cbn [snd]. split; [reflexivity |]. cbn. auto.
  - exfalso. exact (processNode_total r Hr clone None E).
Qed.

Lemma rendering_succeeds_when_urls_resolve_witness :
  exists e, snd (extractPage (fun h => Some h) "Docs" "https://x.com/" "now" navPage) = Some e
            /\ url e = "https://x.com/" /\ extractedAt e = "now"
            /\ title e = getPageTitle "Docs" navPage.
Proof.
  apply (rendering_succeeds_when_urls_resolve (fun h => Some h)).
  intros h. discriminate.
Defined.

(** X8.  A failure below a visible element fails the element, whatever
    its tag: the children are rendered before the tag is looked at, so one
    link that does not resolve inside a [pre], a [table] or a [script]
    fails the rendering although the text of these children is not used;
    below a hidden element the children are not rendered and nothing
    fails. *)
Theorem processNode_failure_propagates
    (r : string -> option string) (parent : option string)
    (i : nat) (t : string) (a : attrs) (cs : list node) (c : node) :
  In c cs ->
  processNode r (Some t) c = None ->
  processNode r parent (Element i t a cs) =
    if isHidden a then Some EmptyString else None.
Proof.
  intros Hin Hc. rewrite processNode_element.
  destruct (isHidden a); [reflexivity |].
  rewrite (sequence_fails (map (processNode r (Some t)) cs)); [reflexivity |].
  rewrite <- Hc. apply in_map, Hin.
Qed.

Lemma processNode_failure_propagates_witness :
  processNode (fun _ => None) None
    (Element 1 "script" [] [Element 2 "a" [("href", "http://[")] [Text 3 "x"]]) = None.
Proof.
  apply (processNode_failure_propagates (fun _ => None) None 1 "script" []
           [Element 2 "a" [("href", "http://[")] [Text 3 "x"]]
           (Element 2 "a" [("href", "http://[")] [Text 3 "x"])).
  - left. reflexivity.
  - reflexivity.
Defined.

(** ** Rendering does not look at identities *)

Lemma textContent_eraseIds n : textContent (eraseIds n) = textContent n.
Proof.
  induction n as [i d | i k d | i t a cs IH] using node_ind; [reflexivity | reflexivity |].
  cbn [eraseIds textContent]. f_equal. rewrite map_map.
  apply map_ext_in. intros c Hc. rewrite Forall_forall in IH.
  apply IH, list_elem_of_In, Hc.
Qed.

Lemma selectFrom_eraseIds sel anc n :
  selectFrom sel anc (eraseIds n) = map eraseLoc (selectFrom sel anc n).
Proof.
  revert anc. induction n as [i d | i k d | i t a cs IH] using node_ind; intros anc;
    [reflexivity | reflexivity |].
  cbn [eraseIds selectFrom]. rewrite map_app. f_equal.
  - destruct (matchSelector sel anc (t, a)); reflexivity.
  - induction cs as [| c cs IHcs]; [reflexivity |].
    inversion IH as [| ? ? Hc HF]; subst.
    cbn [map flat_map]. rewrite map_app, Hc, IHcs by exact HF. reflexivity.
Qed.

Lemma selectFrom_children_eraseIds sel anc cs :
  flat_map (selectFrom sel anc) (map eraseIds cs) =
  map eraseLoc (flat_map (selectFrom sel anc) cs).
Proof.
  induction cs as [| c cs IH]; [reflexivity |].
  cbn [map flat_map]. rewrite map_app, IH, selectFrom_eraseIds. reflexivity.
Qed.

Lemma querySelectorAll_eraseIds sel n :
  querySelectorAll sel (atTop (eraseIds n)) = map eraseIds (querySelectorAll sel (atTop n)).
Proof.
  unfold querySelectorAll, querySelectorAllLoc, atTop. cbn [fst snd].
  destruct n as [i d | i k d | i t a cs]; [reflexivity | reflexivity |].
  cbn [eraseIds]. rewrite selectFrom_children_eraseIds, !map_map. reflexivity.
Qed.

Lemma cellTextsOf_eraseIds row : cellTextsOf (eraseIds row) = cellTextsOf row.
Proof.
  unfold cellTextsOf. rewrite querySelectorAll_eraseIds, map_map.
  apply map_ext. intros c. rewrite textContent_eraseIds. reflexivity.
Qed.

Lemma hasHeaderCell_eraseIds row : hasHeaderCell (eraseIds row) = hasHeaderCell row.
Proof.
  unfold hasHeaderCell, querySelector. rewrite querySelectorAll_eraseIds.
  destruct (querySelectorAll (tags ["th"]) (atTop row)); reflexivity.
Qed.

Lemma tableLoop_eraseIds rows k hp result :
  tableLoop (map eraseIds rows) k hp result = tableLoop rows k hp result.
Proof.
  revert k hp result. induction rows as [| row rows IH]; intros k hp result; [reflexivity |].
  cbn [map tableLoop]. rewrite cellTextsOf_eraseIds, hasHeaderCell_eraseIds, !IH.
  reflexivity.
Qed.

Lemma convertTableToMarkdown_eraseIds t :
  convertTableToMarkdown (eraseIds t) = convertTableToMarkdown t.
Proof.
  unfold convertTableToMarkdown, tableLines.
  rewrite querySelectorAll_eraseIds, tableLoop_eraseIds.
  destruct (querySelectorAll (tags ["tr"]) (atTop t)); reflexivity.
Qed.

Lemma tagOf_eraseIds n : tagOf (eraseIds n) = tagOf n.
Proof. destruct n; reflexivity. Qed.

Lemma attsOf_eraseIds n : attsOf (eraseIds n) = attsOf n.
Proof. destruct n; reflexivity. Qed.

Lemma renderElement_eraseIds r parent el children items :
  renderElement r parent (eraseIds el) children items =
  renderElement r parent el children items.
Proof.
  unfold renderElement.
  rewrite convertTableToMarkdown_eraseIds, tagOf_eraseIds, attsOf_eraseIds.
  unfold querySelector. rewrite querySelectorAll_eraseIds.
  unfold detectLanguageFromElement.
  destruct (querySelectorAll (tags ["code"]) (atTop el)) as [| c cs];
    cbn [map head from_option Datatypes.id];
    rewrite attsOf_eraseIds, textContent_eraseIds; reflexivity.
Qed.

Lemma isLi_eraseIds n : isLi (eraseIds n) = isLi n.
Proof. destruct n; reflexivity. Qed.

Lemma processNode_eraseIds r n parent :
  processNode r parent (eraseIds n) = processNode r parent n.
Proof.
  revert parent. induction n as [i d | i k d | i t a cs IH] using node_ind; intros parent;
    [reflexivity | reflexivity |].
  change (eraseIds (Element i t a cs)) with (Element 0 t a (map eraseIds cs)).
  rewrite !processNode_element.
  replace (map (processNode r (Some t)) (map eraseIds cs))
    with (map (processNode r (Some t)) cs).
  2:{ rewrite map_map. apply map_ext_in. intros c Hc. rewrite Forall_forall in IH.
      symmetry. apply IH, list_elem_of_In, Hc. }
  replace (flat_map (fun c => if isLi c then [processNode r (Some t) c] else [])
             (map eraseIds cs))
    with (flat_map (fun c => if isLi c then [processNode r (Some t) c] else []) cs).
  2:{ clear parent. induction cs as [| c cs IHcs]; [reflexivity |].
      inversion IH as [| ? ? Hc HF]; subst.
      cbn [map flat_map]. rewrite isLi_eraseIds, Hc, <- IHcs by exact HF. reflexivity. }
  destruct (isHidden a); [reflexivity |].
  destruct (sequence (map (processNode r (Some t)) cs)) as [parts |]; [| reflexivity].
  destruct (sequence (flat_map _ cs)) as [items |]; [| reflexivity].
  apply (renderElement_eraseIds r parent (Element i t a cs)).
Qed.

Lemma processNode_cloneNode r base n parent :
  processNode r parent (cloneNode base n) = processNode r parent n.
Proof.
  rewrite <- (processNode_eraseIds r (cloneNode base n)), cloneNode_same_content.
  apply processNode_eraseIds.
Qed.

Lemma querySelectorAll_cloneNode_nil sel base n :
  querySelectorAll sel (atTop n) = [] ->
  querySelectorAll sel (atTop (cloneNode base n)) = [].
Proof.
  intros H.
  assert (E : map eraseIds (querySelectorAll sel (atTop (cloneNode base n))) = []).
  { rewrite <- querySelectorAll_eraseIds, cloneNode_same_content,
      querySelectorAll_eraseIds, H. reflexivity. }
  destruct (querySelectorAll sel (atTop (cloneNode base n))); [reflexivity | discriminate].
Qed.

(** X9.  The rendering of a node does not depend on the identities of
    the objects: a clone renders as the original.  So on a region without
    any of the unwanted elements convertToMarkdown is processNode on the
    region, and the store is unchanged. *)
Theorem convertToMarkdown_without_unwanted
    (r : string -> option string) (st : store) (container : node) :
  (forall base parent,
     processNode r parent (cloneNode base container) = processNode r parent container)
  /\ ((forall sel, In sel removeSelectors ->
                   querySelectorAll sel (atTop container) = []) ->
      convertToMarkdown r st container = (st, processNode r None container)).
Proof.
  split; [intros; apply processNode_cloneNode |].
  intros Hnone. unfold convertToMarkdown, cloneAndPrune.
  set (base := S (Nat.max (maxIdStore st) (maxId container))).
  assert (Hfold : forall sels, (forall sel, In sel sels -> In sel removeSelectors) ->
            fold_left removeMatching sels (st, cloneNode base container)
            = (st, cloneNode base container)).
  { induction sels as [| sel sels IH]; intros Hin; [reflexivity |].
    cbn [fold_left]. unfold removeMatching at 2. cbn [snd].
    rewrite (querySelectorAll_cloneNode_nil sel base container)
      by (apply Hnone, Hin; left; reflexivity).
    cbn [fold_left]. apply IH. intros s Hs. apply Hin. right. exact Hs. }
  rewrite (Hfold removeSelectors) by auto.
  rewrite processNode_cloneNode. reflexivity.
Qed.

Lemma convertToMarkdown_without_unwanted_witness :
  convertToMarkdown (fun h => Some h) [twoItemList] twoItemList =
  ([twoItemList], processNode (fun h => Some h) None twoItemList).
Proof.
  apply (convertToMarkdown_without_unwanted (fun h => Some h) [twoItemList] twoItemList).
  intros sel Hin. unfold removeSelectors in Hin. cbn [In] in Hin.
  repeat (destruct Hin as [<- | Hin]; [reflexivity |]). destruct Hin.
Defined.

(** ** What the removal leaves *)

Lemma subtreeKeys_element i t a cs :
  subtreeKeys (Element i t a cs) = (i, (t, a)) :: descendantKeys (Element i t a cs).
Proof. reflexivity. Qed.

Lemma children_removed_keys i cs k :
  Forall (fun c => forall k, In k (descendantKeys (removeById i c)) ->
                             fst k <> i /\ In k (descendantKeys c)) cs ->
  In k (flat_map subtreeKeys
          (flat_map (fun c => if (nodeId c =? i)%nat then [] else [removeById i c]) cs)) ->
  fst k <> i /\ In k (flat_map subtreeKeys cs).
Proof.
  induction 1 as [| c cs Hc _ IH]; [intros [] |].
  cbn [flat_map]. destruct (Nat.eqb_spec (nodeId c) i) as [Heq | Hne]; cbn [app flat_map].
  - intros H. destruct (IH H) as [H1 H2]. split; [exact H1 |].
    apply in_or_app. right. exact H2.
  - rewrite in_app_iff. intros [H | H].
    + destruct c as [j d | j o d | j t a cs']; [destruct H | destruct H |].
      change (removeById i (Element j t a cs'))
        with (Element j t a (flat_map (fun c => if (nodeId c =? i)%nat then []
                                                else [removeById i c]) cs')) in H.
      rewrite subtreeKeys_element in H. destruct H as [<- | H].
      * split; [exact Hne |]. apply in_or_app. left. left. reflexivity.
      * destruct (Hc k H) as [H1 H2]. split; [exact H1 |].
        apply in_or_app. left. right. exact H2.
    + destruct (IH H) as [H1 H2]. split; [exact H1 |].
      apply in_or_app. right. exact H2.
Qed.

Lemma removeById_keys i n k :
  In k (descendantKeys (removeById i n)) -> fst k <> i /\ In k (descendantKeys n).
Proof.
  revert k. induction n as [j d | j o d | j t a cs IH] using node_ind; intros k;
    [intros [] | intros [] |].
  unfold descendantKeys. cbn [removeById childNodes].
  apply children_removed_keys. exact IH.
Qed.

Lemma removeAll_keys els st k :
  In k (descendantKeys (snd (fold_left removeNode els st))) ->
  In k (descendantKeys (snd st)) /\ forall el, In el els -> fst k <> nodeId el.
Proof.
  revert st. induction els as [| el els IH]; intros st H; cbn [fold_left] in H.
  - split; [exact H | intros el []].
  - apply IH in H. destruct H as [H Hels]. cbn [removeNode snd] in H.
    apply removeById_keys in H. destruct H as [Hne H]. split; [exact H |].
    intros el' [<- | Hin]; [exact Hne | apply Hels, Hin].
Qed.

Lemma removeSelectors_keys sels st k :
  In k (descendantKeys (snd (fold_left removeMatching sels st))) ->
  In k (descendantKeys (snd st)).
Proof.
  revert st. induction sels as [| sel sels IH]; intros st H; [exact H |].
  cbn [fold_left] in H. apply IH in H. unfold removeMatching in H.
  apply removeAll_keys in H. tauto.
Qed.

Lemma subtreeLocated_key anc n el :
  In el (subtreeLocated anc n) -> In (nodeId (snd el), einfoOf (snd el)) (subtreeKeys n).
Proof.
  revert anc. induction n as [j d | j o d | j t a cs IH] using node_ind; intros anc;
    [intros [] | intros [] |].
  cbn [subtreeLocated subtreeKeys]. intros [<- | H]; [left; reflexivity | right].
  apply in_flat_map in H. destruct H as (c & Hc & H). apply in_flat_map.
  exists c. split; [exact Hc |]. rewrite Forall_forall in IH.
  eapply IH; [apply list_elem_of_In; exact Hc | exact H].
Qed.

Lemma key_subtreeLocated anc n k :
  In k (subtreeKeys n) ->
  exists el, In el (subtreeLocated anc n) /\ k = (nodeId (snd el), einfoOf (snd el)).
Proof.
  revert anc. induction n as [j d | j o d | j t a cs IH] using node_ind; intros anc;
    [intros [] | intros [] |].
  cbn [subtreeLocated subtreeKeys]. intros [<- | H].
  - exists (anc, Element j t a cs). split; [left; reflexivity | reflexivity].
  - apply in_flat_map in H. destruct H as (c & Hc & H). rewrite Forall_forall in IH.
    destruct (IH c (proj2 (list_elem_of_In _ _) Hc) ((t, a) :: anc) H) as (el & Hel & ->).
    exists el. split; [| reflexivity]. right. apply in_flat_map. eauto.
Qed.

Lemma descendantsLocated_key n el :
  In el (descendantsLocated (atTop n)) ->
  In (nodeId (snd el), einfoOf (snd el)) (descendantKeys n).
Proof.
  unfold descendantsLocated, descendantKeys, atTop. cbn [fst snd].
  destruct n as [j d | j o d | j t a cs]; [intros [] | intros [] |].
  cbn [childNodes]. intros H. apply in_flat_map in H. destruct H as (c & Hc & H).
  apply in_flat_map. exists c. split; [exact Hc |]. eapply subtreeLocated_key, H.
Qed.

Lemma key_descendantsLocated n k :
  In k (descendantKeys n) ->
  exists el, In el (descendantsLocated (atTop n))
             /\ k = (nodeId (snd el), einfoOf (snd el)).
Proof.
  unfold descendantsLocated, descendantKeys, atTop. cbn [fst snd].
  destruct n as [j d | j o d | j t a cs]; [intros [] | intros [] |].
  cbn [childNodes]. intros H. apply in_flat_map in H. destruct H as (c & Hc & H).
  destruct (key_subtreeLocated [(t, a)] c k H) as (el & Hel & ->).
  exists el. split; [| reflexivity]. apply in_flat_map. eauto.
Qed.

Lemma removeMatching_none_left sel st k :
  contextFree sel ->
  In k (descendantKeys (snd (removeMatching st sel))) ->
  matchSelector sel [] (snd k) = false.
Proof.
  intros Hfree H. unfold removeMatching in H. apply removeAll_keys in H.
  destruct H as [Hk Hels].
  destruct (matchSelector sel [] (snd k)) eqn:Hm; [exfalso | reflexivity].
  destruct (key_descendantsLocated (snd st) k Hk) as (el & Hel & ->).
  apply (Hels (snd el)); [| reflexivity].
  unfold querySelectorAll. apply in_map. apply querySelectorAllLoc_in.
  split; [exact Hel |]. rewrite (Hfree (fst el) []). exact Hm.
Qed.

Lemma removeSelectors_none_left sels st sel k :
  (forall s, In s sels -> contextFree s) ->
  In sel sels ->
  In k (descendantKeys (snd (fold_left removeMatching sels st))) ->
  matchSelector sel [] (snd k) = false.
Proof.
  revert st. induction sels as [| s sels IH]; intros st Hfree Hin Hk; [destruct Hin |].
  cbn [fold_left] in Hk. destruct Hin as [-> | Hin].
  - apply removeSelectors_keys in Hk.
    apply (removeMatching_none_left sel st k); [apply Hfree; left; reflexivity | exact Hk].
  - apply (IH (removeMatching st s)); auto. intros s' Hs'. apply Hfree. right. exact Hs'.
Qed.

Lemma removeSelectors_contextFree s : In s removeSelectors -> contextFree s.
Proof.
  unfold removeSelectors. cbn [In]. intros H.
  repeat (destruct H as [<- | H]; [intros anc anc' e; reflexivity |]). destruct H.
Qed.

(** X10.  After the preprocessing of convertToMarkdown the clone has no
    descendant left that one of the removal selectors matches: no [nav],
    [script], [style], [noscript], [svg] or [iframe], and no element of
    class [ad], [advertisement] or [cookie-banner], at any depth. *)
Theorem cloneAndPrune_removes_every_match (st : store) (container : node) (sel : selector) :
  In sel removeSelectors ->
  querySelectorAll sel (atTop (snd (cloneAndPrune st container))) = [].
Proof.
  intros Hin.
  destruct (querySelectorAll sel (atTop (snd (cloneAndPrune st container))))
    as [| x xs] eqn:E; [reflexivity | exfalso].
  assert (Hx : In x (querySelectorAll sel (atTop (snd (cloneAndPrune st container))))).
  { rewrite E. left. reflexivity. }
  unfold querySelectorAll in Hx. apply in_map_iff in Hx. destruct Hx as (el & <- & Hel).
  apply querySelectorAllLoc_in in Hel. destruct Hel as [Hel Hm].
  apply descendantsLocated_key in Hel.
  unfold cloneAndPrune in Hel.
  apply (removeSelectors_none_left removeSelectors _ sel) in Hel;
    [| apply removeSelectors_contextFree | exact Hin].
  cbn [snd] in Hel.
  rewrite (removeSelectors_contextFree sel Hin (fst el) []) in Hm. congruence.
Qed.

Lemma cloneAndPrune_removes_every_match_witness :
  querySelectorAll (tags ["nav"]) (atTop (snd (cloneAndPrune [navRegion] navRegion))) = [].
Proof.
  apply (cloneAndPrune_removes_every_match [navRegion] navRegion (tags ["nav"])).
  left. reflexivity.
Defined.

(** ** White space and new-lines in the text *)

Lemma collapseWsGo_singleSpaced b s : singleSpacedFrom b (Js.collapseWsGo b s) = true.
Proof.
  revert b. induction s as [| c r IH]; intros b; [reflexivity |].
  cbn [Js.collapseWsGo]. destruct (Js.isSpace c) eqn:Hc.
  - destruct b; [apply IH |].
    cbn [singleSpacedFrom]. change (Js.isSpace " ") with true. cbn. apply IH.
  - cbn [singleSpacedFrom]. rewrite Hc. apply IH.
Qed.

Lemma collapseWsGo_fixed b s : singleSpacedFrom b s = true -> Js.collapseWsGo b s = s.
Proof.
  revert b. induction s as [| c r IH]; intros b H; [reflexivity |].
  cbn [singleSpacedFrom Js.collapseWsGo] in *. destruct (Js.isSpace c).
  - apply andb_true_iff in H. destruct H as [H Hr].
    apply andb_true_iff in H. destruct H as [Hc Hb].
    apply Ascii.eqb_eq in Hc. subst c. destruct b; [discriminate |].
    rewrite (IH true Hr). reflexivity.
  - rewrite (IH false H). reflexivity.
Qed.

(** X11.  A text node renders, without failure, to its text with every
    run of white space turned into one space: the result has no other
    white space than single spaces, and collapsing it again changes
    nothing. *)
Theorem text_node_single_spaced
    (r : string -> option string) (parent : option string) (i : nat) (d : string) :
  processNode r parent (Text i d) = Some (Js.collapseWs d)
  /\ singleSpaced (Js.collapseWs d) = true
  /\ Js.collapseWs (Js.collapseWs d) = Js.collapseWs d
  /\ (singleSpaced d = true -> Js.collapseWs d = d).
Proof.
  split; [reflexivity |]. split; [apply collapseWsGo_singleSpaced |].
  split; [apply collapseWsGo_fixed, collapseWsGo_singleSpaced |].
  apply collapseWsGo_fixed.
Qed.

Lemma text_node_single_spaced_witness : Js.collapseWs "a b" = "a b".
Proof.
  apply (text_node_single_spaced (fun h => Some h) None 0 "a b"). reflexivity.
Defined.

Lemma collapseNewlinesGo_runs run s :
  newlineRunsBelow3 run (Mcp.collapseNewlinesGo run s) = true.
Proof.
  revert run. induction s as [| c r IH]; intros run; [reflexivity |].
  cbn [Mcp.collapseNewlinesGo]. destruct (Ascii.eqb c (ascii_of_nat 10)) eqn:Hc.
  - destruct (run <? 2)%nat eqn:Hr; [| apply IH].
    cbn [newlineRunsBelow3]. rewrite Hc, Hr. apply IH.
  - cbn [newlineRunsBelow3]. rewrite Hc. apply IH.
Qed.

Lemma newlineRuns_mono k k' s :
  (k' <= k)%nat -> newlineRunsBelow3 k s = true -> newlineRunsBelow3 k' s = true.
Proof.
  revert k k'. induction s as [| c r IH]; intros k k' Hle H; [reflexivity |].
  cbn [newlineRunsBelow3] in *. destruct (Ascii.eqb c (ascii_of_nat 10)); [| exact H].
  apply andb_true_iff in H. destruct H as [Hk Hr]. apply Nat.ltb_lt in Hk.
  apply andb_true_iff. split; [apply Nat.ltb_lt; lia |].
  apply (IH (S k)); [lia | exact Hr].
Qed.

Lemma newlineRuns_tail k c r :
  newlineRunsBelow3 k (String c r) = true -> newlineRunsBelow3 0 r = true.
Proof.
  cbn [newlineRunsBelow3]. destruct (Ascii.eqb c (ascii_of_nat 10)); [| auto].
  intros H. apply andb_true_iff in H. destruct H as [_ H].
  apply (newlineRuns_mono (S k)); [lia | exact H].
Qed.

Lemma newlineRuns_trimStart k s :
  newlineRunsBelow3 k s = true -> newlineRunsBelow3 0 (Js.trimStart s) = true.
Proof.
  revert k. induction s as [| c r IH]; intros k H; [reflexivity |].
  cbn [Js.trimStart]. destruct (Js.isSpace c).
  - apply (IH 0). eapply newlineRuns_tail, H.
  - apply (newlineRuns_mono k); [lia | exact H].
Qed.

Lemma newlineRuns_trimEnd k s :
  newlineRunsBelow3 k s = true -> newlineRunsBelow3 k (Js.trimEnd s) = true.
Proof.
  revert k. induction s as [| c r IH]; intros k H; [reflexivity |].
  rewrite trimEnd_cons. cbn [newlineRunsBelow3] in H.
  destruct (Ascii.eqb c (ascii_of_nat 10)) eqn:Hc.
  - apply andb_true_iff in H. destruct H as [Hk Hr].
    specialize (IH (S k) Hr). destruct (Js.trimEnd r) as [| x y].
    + apply Ascii.eqb_eq in Hc. subst c. reflexivity.
    + cbn [newlineRunsBelow3]. rewrite Hc, Hk. exact IH.
  - specialize (IH 0 H). destruct (Js.trimEnd r) as [| x y].
    + destruct (Js.isSpace c); [reflexivity |]. cbn [newlineRunsBelow3]. rewrite Hc. reflexivity.
    + cbn [newlineRunsBelow3]. rewrite Hc. exact IH.
Qed.

(** X12.  The Markdown text of the MCP server never has three new-lines
    in a row and never starts or ends with white space. *)
Theorem mcp_markdown_is_tidy
    (r : string -> option string) (st : store) (container : node) (md : string) :
  snd (Mcp.convertToMarkdown r st container) = Some md ->
  newlineRunsBelow3 0 md = true
  /\ headIsSpace md = false
  /\ Js.trim md = md.
Proof.
  unfold Mcp.convertToMarkdown.
  destruct (cloneAndPrune st container) as [st' clone]. cbn [snd].
  destruct (Mcp.processNode r None clone) as [raw |]; [| discriminate].
  intros [= <-]. split; [| split].
  - unfold Js.trim. apply newlineRuns_trimEnd.
    apply (newlineRuns_trimStart 0). apply collapseNewlinesGo_runs.
  - apply trim_head.
  - apply trim_idem.
Qed.

Lemma mcp_markdown_is_tidy_witness :
  newlineRunsBelow3 0 "Hello world" = true
  /\ headIsSpace "Hello world" = false
  /\ Js.trim "Hello world" = "Hello world".
Proof.
  apply (mcp_markdown_is_tidy (fun h => Some h) [] helloParagraph "Hello world").
  reflexivity.
Defined.

(** ** What the harvester records *)

Lemma subtreeElements_trans n y x :
  In y (subtreeElements n) -> In x (subtreeElements y) -> In x (subtreeElements n).
Proof.
  induction n as [i d | i k d | i t a cs IH] using node_ind; [intros [] | intros [] |].
  cbn [subtreeElements]. intros [<- | Hy] Hx; [exact Hx | right].
  apply in_flat_map in Hy. destruct Hy as (c & Hc & Hy).
  apply in_flat_map. exists c. split; [exact Hc |].
  rewrite Forall_forall in IH. apply IH; [apply list_elem_of_In; exact Hc | exact Hy | exact Hx].
Qed.

Lemma selectFrom_subtree sel anc n x :
  In x (map snd (selectFrom sel anc n)) -> In x (subtreeElements n).
Proof.
  intros H. apply in_map_iff in H. destruct H as (el & <- & Hel).
  apply selectFrom_in in Hel. destruct Hel as [Hel _]. revert anc Hel.
  induction n as [i d | i k d | i t a cs IH] using node_ind; intros anc;
    [intros [] | intros [] |].
  cbn [subtreeLocated subtreeElements]. intros [<- | H]; [left; reflexivity | right].
  apply in_flat_map in H. destruct H as (c & Hc & H). apply in_flat_map.
  exists c. split; [exact Hc |]. rewrite Forall_forall in IH.
  eapply IH; [apply list_elem_of_In; exact Hc | exact H].
Qed.

Lemma querySelectorAll_subtree sel el x :
  In x (querySelectorAll sel el) -> In x (subtreeElements (snd el)).
Proof.
  unfold querySelectorAll, querySelectorAllLoc.
  destruct (snd el) as [i d | i k d | i t a cs]; [intros [] | intros [] |].
  intros H. apply in_map_iff in H. destruct H as (l & <- & Hl).
  apply in_flat_map in Hl. destruct Hl as (c & Hc & Hl).
  cbn [subtreeElements]. right. apply in_flat_map. exists c. split; [exact Hc |].
  apply (selectFrom_subtree sel ((t, a) :: fst el)). apply in_map. exact Hl.
Qed.

Section HarvestRecords.

Import Harvester.

Variables (U : Harvester.UrlClass) (origin locationHref : string) (absolutize : string -> string) (d : document).

Let currentUrl := normalizeUrl U locationHref.
Let inDocument (x : node) := In x (subtreeElements (documentElement d)).

(** Every recorded link is the record of an element of the document that
    passes the tests. *)
Let recorded (st : harvest) : Prop :=
  Forall (fun s => exists link, inDocument link
                                /\ accepted U origin absolutize currentUrl link
                                /\ s = linkRecord U absolutize currentUrl link)
         (fst st).

Lemma collectLink_recorded st link :
  inDocument link -> recorded st ->
  recorded (collectLink U origin absolutize currentUrl st link).
Proof.
  intros Hin Hst. unfold collectLink.
  destruct (String.eqb_spec (hrefOf absolutize link) EmptyString) as [| Hhref];
    [exact Hst |].
  destruct (String.eqb (Js.trim (textContent link)) EmptyString); [exact Hst |].
  destruct (String.length (Js.trim (textContent link)) <? 2)%nat eqn:Hlen; [exact Hst |].
  cbn [orb]. apply Nat.ltb_ge in Hlen.
  destruct (Js.startsWith origin (hrefOf absolutize link)) eqn:Ho; [| exact Hst].
  cbn [negb].
  destruct (Js.includes "#" (hrefOf absolutize link)
            && String.eqb (normalizeUrl U (hrefOf absolutize link)) currentUrl) eqn:Hanchor;
    [exact Hst |].
  destruct (isDownload (hrefOf absolutize link)) eqn:Hdl; [exact Hst |].
  destruct (decide _); [exact Hst |].
  unfold recorded. cbn [fst]. apply Forall_app. split; [exact Hst |].
  constructor; [| constructor]. exists link. split; [exact Hin |]. split; [| reflexivity].
  unfold accepted. repeat split; auto.
  intros Hhash Heq. rewrite Hhash in Hanchor. cbn [andb] in Hanchor.
  apply String.eqb_neq in Hanchor. contradiction.
Qed.

Lemma collectLinks_recorded links st :
  (forall l, In l links -> inDocument l) -> recorded st ->
  recorded (collectLinks U origin absolutize links st currentUrl).
Proof.
  unfold collectLinks. revert st.
  induction links as [| l links IH]; intros st Hin Hst; [exact Hst |].
  cbn [fold_left]. apply IH; [intros x Hx; apply Hin; right; exact Hx |].
  apply collectLink_recorded; [apply Hin; left; reflexivity | exact Hst].
Qed.

Lemma docLinks_inDocument sel l :
  In l (map snd (docQuerySelectorAll sel d)) -> inDocument l.
Proof. apply selectFrom_subtree. Qed.

Lemma nestedLinks_inDocument sel sel' el l :
  In el (docQuerySelectorAll sel d) -> In l (querySelectorAll sel' el) -> inDocument l.
Proof.
  intros Hel Hl. apply (subtreeElements_trans _ (snd el)).
  - apply (selectFrom_subtree sel []). apply in_map. exact Hel.
  - apply (querySelectorAll_subtree sel'). exact Hl.
Qed.

Lemma strategy1_recorded sels st :
  recorded st -> recorded (strategy1 U origin absolutize d currentUrl sels st).
Proof.
  revert st. induction sels as [| sel sels IH]; intros st H; [exact H |].
  cbn [strategy1]. destruct (2 <? _)%nat; [| apply IH, H].
  assert (H' : recorded (collectLinks U origin absolutize
                           (map snd (docQuerySelectorAll sel d)) st currentUrl)).
  { apply collectLinks_recorded; [apply docLinks_inDocument | exact H]. }
  destruct (3 <? _)%nat; [exact H' | apply IH, H'].
Qed.

Lemma fold_recorded {A} (step : harvest -> A -> harvest) (xs : list A) st :
  (forall s x, In x xs -> recorded s -> recorded (step s x)) ->
  recorded st -> recorded (fold_left step xs st).
Proof.
  revert st. induction xs as [| x xs IH]; intros st Hstep H; [exact H |].
  cbn [fold_left]. apply IH.
  - intros s y Hy. apply Hstep. right. exact Hy.
  - apply Hstep; [left; reflexivity | exact H].
Qed.

Lemma strategy2_recorded st :
  recorded st -> recorded (strategy2 U origin absolutize d currentUrl st).
Proof.
  intros H. unfold strategy2. destruct (_ <? 3)%nat; [| exact H].
  apply fold_recorded; [| exact H]. intros s nav Hnav Hs. unfold strategy2Step.
  destruct (isSkippableNav nav); [exact Hs |].
  destruct (5 <? _)%nat; [| exact Hs].
  apply collectLinks_recorded; [| exact Hs].
  intros l Hl. eapply nestedLinks_inDocument; eassumption.
Qed.

Lemma strategy3_recorded st :
  recorded st -> recorded (strategy3 U origin absolutize d currentUrl st).
Proof.
  intros H. unfold strategy3. destruct (_ <? 3)%nat; [| exact H].
  apply fold_recorded; [| exact H]. intros s lst Hlst Hs. unfold strategy3Step.
  destruct (mostlyInternal _ _); [| exact Hs].
  apply collectLinks_recorded; [| exact Hs].
  intros l Hl. eapply nestedLinks_inDocument; eassumption.
Qed.

Lemma detectDocSections_recorded :
  Forall (fun s => exists link, inDocument link
                                /\ accepted U origin absolutize currentUrl link
                                /\ s = linkRecord U absolutize currentUrl link)
         (detectDocSections U origin locationHref absolutize d).
Proof.
  unfold detectDocSections.
  apply strategy3_recorded, strategy2_recorded, strategy1_recorded. constructor.
Qed.

End HarvestRecords.

(** X13.  Every link the harvester returns is the record of an element of
    the document: its address is the resolved [href] of the element, it
    starts with the origin and does not end in a download extension; its
    title is the trimmed text of the element and has two characters at
    least; it is marked as the current page exactly when its normalized
    address is the normalized location, and then the address has no
    fragment.  A document in which no element has an [href] gives no
    link. *)
Theorem harvested_links_are_document_links
    (U : Harvester.UrlClass) (origin locationHref : string) (absolutize : string -> string) (d : document) :
  Forall (fun s =>
            (exists link, In link (subtreeElements (documentElement d))
                          /\ Harvester.url s = Harvester.hrefOf absolutize link
                          /\ Harvester.title s = Js.trim (textContent link))
            /\ Js.startsWith origin (Harvester.url s) = true
            /\ Harvester.isDownload (Harvester.url s) = false
            /\ (2 <= String.length (Harvester.title s))%nat
            /\ Harvester.isCurrentPage s =
                 String.eqb (normalizedUrlOf U s) (Harvester.normalizeUrl U locationHref)
            /\ (Harvester.isCurrentPage s = true ->
                 Js.includes "#" (Harvester.url s) = false))
         (Harvester.detectDocSections U origin locationHref absolutize d)
  /\ ((forall el, In el (subtreeElements (documentElement d)) ->
                  getAttribute "href" (attsOf el) = None) ->
      Harvester.detectDocSections U origin locationHref absolutize d = []).
Proof.
  pose proof (detectDocSections_recorded U origin locationHref absolutize d) as H.
  split.
  - eapply Forall_impl; [exact H |]. cbn beta.
    intros s (link & Hin & (Hhref & Hlen & Ho & Hdl & Hanchor) & ->).
    unfold linkRecord, normalizedUrlOf. cbn.
    repeat split; auto.
    + exists link. auto.
    + intros Hcur. apply String.eqb_eq in Hcur.
      destruct (Js.includes "#" (Harvester.hrefOf absolutize link)) eqn:E; [| reflexivity].
      exfalso. exact (Hanchor eq_refl Hcur).
  - intros Hno.
    destruct (Harvester.detectDocSections U origin locationHref absolutize d) as [| s rest];
      [reflexivity | exfalso].
    inversion H as [| ? ? (link & Hin & (Hhref & _) & _) _]; subst.
    apply Hhref. unfold Harvester.hrefOf.
    rewrite (Hno link Hin). destruct (inList _ _); reflexivity.
Qed.

Lemma harvested_links_are_document_links_witness :
  Harvester.detectDocSections sampleUrls "https://x.com" "https://x.com/start" (fun h => h) plainPage = [].
Proof.
  apply (harvested_links_are_document_links sampleUrls "https://x.com" "https://x.com/start"
           (fun h => h) plainPage).
  intros el Hin. cbn in Hin.
  repeat (destruct Hin as [<- | Hin]; [reflexivity |]). destruct Hin.
Defined.

(** ** The cascade only adds *)

Section HarvestGrowth.

Import Harvester.

Variables (U : Harvester.UrlClass) (origin : string) (absolutize : string -> string) (d : document)
          (currentUrl : string).

Lemma collectLink_extends st link :
  exists more, fst (collectLink U origin absolutize currentUrl st link) = fst st ++ more.
Proof.
  unfold collectLink.
  repeat match goal with
         | |- context [if ?c then _ else _] => destruct c
         end;
    first [ exists []; rewrite app_nil_r; reflexivity | eexists; reflexivity ].
Qed.

Lemma collectLinks_extends links st :
  exists more, fst (collectLinks U origin absolutize links st currentUrl) = fst st ++ more.
Proof.
  unfold collectLinks. revert st.
  induction links as [| l links IH]; intros st.
  - exists []. rewrite app_nil_r. reflexivity.
  - cbn [fold_left].
    destruct (IH (collectLink U origin absolutize currentUrl st l)) as (m2 & ->).
    destruct (collectLink_extends st l) as (m1 & ->).
    exists (m1 ++ m2). rewrite app_assoc. reflexivity.
Qed.

Lemma fold_extends {A} (step : harvest -> A -> harvest) (xs : list A) st :
  (forall s x, exists more, fst (step s x) = fst s ++ more) ->
  exists more, fst (fold_left step xs st) = fst st ++ more.
Proof.
  intros Hstep. revert st. induction xs as [| x xs IH]; intros st.
  - exists []. rewrite app_nil_r. reflexivity.
  - cbn [fold_left]. destruct (IH (step st x)) as (m2 & ->).
    destruct (Hstep st x) as (m1 & ->).
    exists (m1 ++ m2). rewrite app_assoc. reflexivity.
Qed.

Lemma strategy2_extends st :
  exists more, fst (strategy2 U origin absolutize d currentUrl st) = fst st ++ more.
Proof.
  unfold strategy2. destruct (_ <? 3)%nat.
  - apply fold_extends. intros s nav. unfold strategy2Step.
    destruct (isSkippableNav nav); [exists []; rewrite app_nil_r; reflexivity |].
    destruct (5 <? _)%nat; [apply collectLinks_extends |].
    exists []. rewrite app_nil_r. reflexivity.
  - exists []. rewrite app_nil_r. reflexivity.
Qed.

Lemma strategy3_extends st :
  exists more, fst (strategy3 U origin absolutize d currentUrl st) = fst st ++ more.
Proof.
  unfold strategy3. destruct (_ <? 3)%nat.
  - apply fold_extends. intros s l. unfold strategy3Step.
    destruct (mostlyInternal _ _); [apply collectLinks_extends |].
    exists []. rewrite app_nil_r. reflexivity.
  - exists []. rewrite app_nil_r. reflexivity.
Qed.

End HarvestGrowth.

(** X14.  The strategies only add links: the result of the harvester
    starts with the links of strategy 1, in their order, and is exactly
    these links when strategy 1 found three or more (the two other
    strategies are then not run). *)
Theorem harvest_starts_with_strategy1
    (U : Harvester.UrlClass) (origin locationHref : string) (absolutize : string -> string) (d : document) :
  let first :=
    fst (Harvester.strategy1 U origin absolutize d (Harvester.normalizeUrl U locationHref)
           Harvester.sidebarSelectors ([], ∅)) in
  (exists more,
     Harvester.detectDocSections U origin locationHref absolutize d = first ++ more)
  /\ ((3 <= length first)%nat ->
      Harvester.detectDocSections U origin locationHref absolutize d = first).
Proof.
  intros first. unfold Harvester.detectDocSections.
  set (cur := Harvester.normalizeUrl U locationHref).
  set (st1 := Harvester.strategy1 U origin absolutize d cur Harvester.sidebarSelectors ([], ∅)).
  fold st1 in first. split.
  - destruct (strategy3_extends U origin absolutize d cur
                (Harvester.strategy2 U origin absolutize d cur st1)) as (m3 & ->).
    destruct (strategy2_extends U origin absolutize d cur st1) as (m2 & ->).
    exists (m2 ++ m3). rewrite app_assoc. reflexivity.
  - intros Hlen.
    assert (E : (length (fst st1) <? 3)%nat = false) by (apply Nat.ltb_ge; exact Hlen).
    unfold Harvester.strategy3, Harvester.strategy2. rewrite E, E. reflexivity.
Qed.

Lemma harvest_starts_with_strategy1_witness :
  Harvester.detectDocSections sampleUrls "https://x.com" "https://x.com/start" (fun h => h) fourLinkPage =
  fst (Harvester.strategy1 sampleUrls "https://x.com" (fun h => h) fourLinkPage
         (Harvester.normalizeUrl sampleUrls "https://x.com/start") Harvester.sidebarSelectors ([], ∅)).
Proof.
  apply (harvest_starts_with_strategy1 sampleUrls "https://x.com" "https://x.com/start"
           (fun h => h) fourLinkPage).
  vm_compute. lia.
Defined.

(** ** The two simple harvesters *)

Section SimpleHarvesters.

Variables (origin locationHref : string) (absolutize : string -> string) (d : document).

(** What the first harvester keeps: distinct addresses, all of the
    origin, each with a title, the current page marked by its address. *)
Let wellFormed (sections : list Harvester.DetectedSection) : Prop :=
  NoDup (map Harvester.url sections)
  /\ Forall (fun s => Js.startsWith origin (Harvester.url s) = true
                      /\ Harvester.url s <> EmptyString
                      /\ Harvester.title s <> EmptyString
                      /\ Harvester.isCurrentPage s = String.eqb (Harvester.url s) locationHref)
            sections.

Lemma existsb_url_false sections href :
  existsb (fun s => String.eqb (Harvester.url s) href) sections = false ->
  ~ In href (map Harvester.url sections).
Proof.
  induction sections as [| s rest IH]; [intros _ [] |].
  cbn [existsb map]. intros H. apply orb_false_iff in H. destruct H as [Hs Hr].
  intros [Heq | Hin]; [| exact (IH Hr Hin)].
  apply String.eqb_neq in Hs. contradiction.
Qed.

Lemma addLink_wellFormed sections link :
  wellFormed sections ->
  wellFormed (ExtractorTs.addLink origin locationHref absolutize sections link).
Proof.
  intros [Hnd Hall]. unfold ExtractorTs.addLink.
  destruct (String.eqb_spec (Harvester.hrefOf absolutize link) EmptyString) as [| Hhref];
    [split; assumption |].
  destruct (String.eqb_spec (Js.trim (textContent link)) EmptyString) as [| Ht];
    [split; assumption |].
  destruct (Js.startsWith origin (Harvester.hrefOf absolutize link)) eqn:Ho;
    [| split; assumption].
  cbn [negb andb].
  destruct (existsb _ sections) eqn:Hdup; [split; assumption |].
  split.
  - rewrite map_app. apply NoDup_app. split; [exact Hnd |]. split.
    + intros x Hx Hx'. cbn in Hx'. apply list_elem_of_singleton in Hx'. subst x.
      apply (existsb_url_false _ _ Hdup). apply list_elem_of_In. exact Hx.
    + apply NoDup_singleton.
  - apply Forall_app. split; [exact Hall |]. constructor; [| constructor]. cbn. auto.
Qed.

Lemma addLinks_wellFormed links sections :
  wellFormed sections ->
  wellFormed (fold_left (ExtractorTs.addLink origin locationHref absolutize) links sections).
Proof.
  revert sections. induction links as [| l links IH]; intros sections H; [exact H |].
  cbn [fold_left]. apply IH, addLink_wellFormed, H.
Qed.

(** The loop returns the links of one selector, the first that has more
    than two matches and gives a link. *)
Lemma detectLoop_single sels :
  ExtractorTs.detectLoop origin locationHref absolutize d sels [] = []
  \/ exists sel, In sel sels
       /\ ExtractorTs.detectLoop origin locationHref absolutize d sels [] =
          fold_left (ExtractorTs.addLink origin locationHref absolutize)
                    (map snd (docQuerySelectorAll sel d)) [].
Proof.
  induction sels as [| sel sels IH]; [left; reflexivity |].
  cbn [ExtractorTs.detectLoop]. destruct (2 <? _)%nat.
  - destruct (fold_left _ (map snd (docQuerySelectorAll sel d)) []) as [| s rest] eqn:E.
    + cbn. destruct IH as [IH | (s' & Hin & IH)]; [left; exact IH |].
      right. exists s'. split; [right; exact Hin | exact IH].
    + right. exists sel. split; [left; reflexivity |]. rewrite E. reflexivity.
  - destruct IH as [IH | (s' & Hin & IH)]; [left; exact IH |].
    right. exists s'. split; [right; exact Hin | exact IH].
Qed.







Lemma simple_detect_wellFormed :
  wellFormed (ExtractorTs.detectDocSections origin locationHref absolutize d).
Proof.
  unfold ExtractorTs.detectDocSections.
  destruct (detectLoop_single ExtractorTs.sidebarSelectors) as [-> | (sel & _ & ->)].
  - split; constructor.
  - apply addLinks_wellFormed. split; constructor.
Qed.

End SimpleHarvesters.

(** X15.  The first harvester (the one of extractor.ts) returns links
    with pairwise distinct addresses, all of the origin and each with a
    title, the current page marked by equality with the location; the
    links are those collected from the matches of a single selector of
    its list. *)
Theorem simple_harvester_links
    (origin locationHref : string) (absolutize : string -> string) (d : document) :
  NoDup (map Harvester.url (ExtractorTs.detectDocSections origin locationHref absolutize d))
  /\ Forall (fun s => Js.startsWith origin (Harvester.url s) = true
                      /\ Harvester.url s <> EmptyString
                      /\ Harvester.title s <> EmptyString
                      /\ Harvester.isCurrentPage s = String.eqb (Harvester.url s) locationHref)
            (ExtractorTs.detectDocSections origin locationHref absolutize d)
  /\ (ExtractorTs.detectDocSections origin locationHref absolutize d = []
      \/ exists sel, In sel ExtractorTs.sidebarSelectors
           /\ ExtractorTs.detectDocSections origin locationHref absolutize d =
              fold_left (ExtractorTs.addLink origin locationHref absolutize)
                        (map snd (docQuerySelectorAll sel d)) []).
Proof.
  destruct (simple_detect_wellFormed origin locationHref absolutize d) as [H1 H2].
  split; [exact H1 | split; [exact H2 |]].
  apply detectLoop_single.
Qed.


(** ** File and folder names *)

Lemma take_length n s : (String.length (Js.take n s) <= n)%nat.
Proof.
  revert s. induction n as [| n IH]; intros s; [cbn; lia |].
  destruct s as [| c r]; cbn [Js.take String.length]; [lia |].
  specialize (IH r). lia.
Qed.

Lemma take_every p n s : everyChar p s = true -> everyChar p (Js.take n s) = true.
Proof.
  revert s. induction n as [| n IH]; intros s H; [reflexivity |].
  destruct s as [| c r]; [reflexivity |]. cbn [Js.take everyChar] in *.
  apply andb_true_iff in H. destruct H as [Hc Hr]. rewrite Hc. apply IH, Hr.
Qed.

Lemma take_all n s : (String.length s <= n)%nat -> Js.take n s = s.
Proof.
  revert s. induction n as [| n IH]; intros s H.
  - destruct s; [reflexivity | cbn in H; lia].
  - destruct s as [| c r]; [reflexivity |]. cbn [Js.take]. rewrite IH; [reflexivity |].
    cbn in H. lia.
Qed.

Lemma take_head n s : headIsUnderscore s = false -> headIsUnderscore (Js.take n s) = false.
Proof. destruct n, s; cbn; auto. Qed.

Lemma underscoreRunsGo_chars b s : everyChar isNameChar (Popup.underscoreRunsGo b s) = true.
Proof.
  revert b. induction s as [| c r IH]; intros b; [reflexivity |].
  cbn [Popup.underscoreRunsGo]. destruct (Js.isLowerAlnum c) eqn:Hc.
  - cbn [everyChar]. unfold isNameChar at 1. rewrite Hc. apply IH.
  - destruct b; [apply IH |]. cbn [everyChar]. rewrite IH. reflexivity.
Qed.

Lemma dropLeading_every p q s :
  everyChar p s = true -> everyChar p (Popup.dropLeading q s) = true.
Proof.
  induction s as [| c r IH]; [reflexivity |]. intros H.
  cbn [Popup.dropLeading]. destruct (q c); [| exact H].
  cbn [everyChar] in H. apply andb_true_iff in H. apply IH. tauto.
Qed.

Lemma dropTrailing_cons q c r :
  Popup.dropTrailing q (String c r) =
  match Popup.dropTrailing q r with
  | EmptyString => if q c then EmptyString else String c EmptyString
  | String x y => String c (String x y)
  end.
Proof. cbn [Popup.dropTrailing]. destruct (Popup.dropTrailing q r); reflexivity. Qed.

Lemma dropTrailing_every p q s :
  everyChar p s = true -> everyChar p (Popup.dropTrailing q s) = true.
Proof.
  induction s as [| c r IH]; [reflexivity |]. intros H.
  cbn [everyChar] in H. apply andb_true_iff in H. destruct H as [Hc Hr].
  rewrite dropTrailing_cons. specialize (IH Hr).
  destruct (Popup.dropTrailing q r) as [| x y].
  - destruct (q c); [reflexivity |]. cbn [everyChar]. rewrite Hc. reflexivity.
  - cbn [everyChar] in *. rewrite Hc. exact IH.
Qed.

Lemma dropLeading_head s :
  headIsUnderscore (Popup.dropLeading Popup.isUnderscore s) = false.
Proof.
  induction s as [| c r IH]; [reflexivity |].
  cbn [Popup.dropLeading]. destruct (Popup.isUnderscore c) eqn:E; [exact IH |].
  cbn [headIsUnderscore]. exact E.
Qed.

Lemma dropTrailing_head q s :
  headIsUnderscore s = false -> headIsUnderscore (Popup.dropTrailing q s) = false.
Proof.
  destruct s as [| c r]; [reflexivity |]. cbn [headIsUnderscore]. intros Hc.
  rewrite dropTrailing_cons. destruct (Popup.dropTrailing q r); [destruct (q c) |]; cbn; auto.
Qed.

Lemma lowerChar_alnum c : Js.isLowerAlnum c = true -> Js.lowerChar c = c.
Proof.
  destruct c as [[] [] [] [] [] [] [] []]; vm_compute; intros H;
    first [reflexivity | discriminate H].
Qed.

Lemma alnum_not_underscore c : Js.isLowerAlnum c = true -> Popup.isUnderscore c = false.
Proof.
  destruct c as [[] [] [] [] [] [] [] []]; vm_compute; intros H;
    first [reflexivity | discriminate H].
Qed.

Lemma clean_toLowerCase s : everyChar Js.isLowerAlnum s = true -> Js.toLowerCase s = s.
Proof.
  induction s as [| c r IH]; [reflexivity |]. cbn [everyChar Js.toLowerCase]. intros H.
  apply andb_true_iff in H. destruct H as [Hc Hr].
  rewrite (lowerChar_alnum c Hc), (IH Hr). reflexivity.
Qed.

Lemma clean_underscoreRuns b s :
  everyChar Js.isLowerAlnum s = true -> Popup.underscoreRunsGo b s = s.
Proof.
  revert b. induction s as [| c r IH]; intros b; [reflexivity |].
  cbn [everyChar Popup.underscoreRunsGo]. intros H.
  apply andb_true_iff in H. destruct H as [Hc Hr]. rewrite Hc, (IH false Hr). reflexivity.
Qed.

Lemma clean_dropLeading s :
  everyChar Js.isLowerAlnum s = true -> Popup.dropLeading Popup.isUnderscore s = s.
Proof.
  destruct s as [| c r]; [reflexivity |]. cbn [everyChar Popup.dropLeading]. intros H.
  apply andb_true_iff in H. destruct H as [Hc _].
  rewrite (alnum_not_underscore c Hc). reflexivity.
Qed.

Lemma clean_dropTrailing s :
  everyChar Js.isLowerAlnum s = true -> Popup.dropTrailing Popup.isUnderscore s = s.
Proof.
  induction s as [| c r IH]; [reflexivity |]. cbn [everyChar]. intros H.
  apply andb_true_iff in H. destruct H as [Hc Hr].
  rewrite dropTrailing_cons, (IH Hr), (alnum_not_underscore c Hc).
  destruct r; reflexivity.
Qed.

(** X18.  A sanitized file name has 50 characters at most, all of them
    lower-case letters, digits or underscores, and does not start with an
    underscore; a name of at most 50 lower-case letters and digits is
    kept as it is. *)
Theorem sanitizeFilename_shape (name : string) :
  (String.length (Popup.sanitizeFilename name) <= 50)%nat
  /\ everyChar isNameChar (Popup.sanitizeFilename name) = true
  /\ headIsUnderscore (Popup.sanitizeFilename name) = false
  /\ (everyChar Js.isLowerAlnum name = true -> (String.length name <= 50)%nat ->
      Popup.sanitizeFilename name = name).
Proof.
  unfold Popup.sanitizeFilename, Popup.stripUnderscores. split; [apply take_length |].
  split; [| split].
  - apply take_every, dropTrailing_every, dropLeading_every, underscoreRunsGo_chars.
  - apply take_head, dropTrailing_head, dropLeading_head.
  - intros Hclean Hlen.
    rewrite (clean_toLowerCase name Hclean).
    unfold Popup.underscoreRuns. rewrite (clean_underscoreRuns false name Hclean).
    rewrite (clean_dropLeading name Hclean), (clean_dropTrailing name Hclean).
    apply take_all, Hlen.
Qed.

Lemma sanitizeFilename_shape_witness : Popup.sanitizeFilename "intro2" = "intro2".
Proof.
  apply (sanitizeFilename_shape "intro2"); [reflexivity | cbn; lia].
Defined.

Lemma keepChars_every p s : everyChar p (Js.keepChars p s) = true.
Proof.
  induction s as [| c r IH]; [reflexivity |].
  cbn [Js.keepChars]. destruct (p c) eqn:Hc; [| exact IH].
  cbn [everyChar]. rewrite Hc. exact IH.
Qed.

(** X19.  The folder name extractDomainName returns is never empty, has
    30 characters at most, and is made of lower-case letters, digits and
    hyphens only, whatever the address and also when it does not parse
    (then it is [extracted]). *)
Theorem extractDomainName_shape (hostnameOf : string -> option string) (url : string) :
  Popup.extractDomainName hostnameOf url <> EmptyString
  /\ (String.length (Popup.extractDomainName hostnameOf url) <= 30)%nat
  /\ everyChar Popup.isDomainChar (Popup.extractDomainName hostnameOf url) = true
  /\ (hostnameOf url = None -> Popup.extractDomainName hostnameOf url = "extracted").
Proof.
  unfold Popup.extractDomainName.
  destruct (hostnameOf url) as [hostname |].
  - match goal with
    | |- context [Js.take 30 ?x] =>
        set (cleaned := x);
        assert (Hevery : everyChar Popup.isDomainChar cleaned = true)
          by apply keepChars_every;
        clearbody cleaned
    end.
    destruct (String.eqb_spec (Js.take 30 cleaned) EmptyString) as [E | E].
    + split; [discriminate | split; [cbn; lia | split; [reflexivity | discriminate]]].
    + split; [exact E | split; [apply take_length | split; [apply take_every, Hevery
                                                          | discriminate]]].
  - split; [discriminate | split; [cbn; lia | split; reflexivity]].
Qed.

(** ** The two renderers side by side *)

Lemma mcp_renderElement_agrees r parent el children items :
  inList (tagOf el) ["pre"; "table"; "img"] = false ->
  Mcp.renderElement r parent el children items = renderElement r parent el children items.
Proof.
  unfold inList. cbn [existsb]. intros H.
  apply orb_false_iff in H. destruct H as [Hpre H].
  apply orb_false_iff in H. destruct H as [Htable H].
  apply orb_false_iff in H. destruct H as [Himg _].
  unfold Mcp.renderElement, renderElement. rewrite Hpre, Htable, Himg. reflexivity.
Qed.

Lemma mcp_processNode_agrees r n :
  avoidsTags ["pre"; "table"; "img"] n = true ->
  forall parent, Mcp.processNode r parent n = processNode r parent n.
Proof.
  induction n as [i d | i k d | i t a cs IH] using node_ind; intros Hav parent;
    [reflexivity | reflexivity |].
  cbn [avoidsTags] in Hav. apply andb_true_iff in Hav. destruct Hav as [Ht Hcs].
  apply negb_true_iff in Ht. rewrite forallb_forall in Hcs.
  rewrite mcp_processNode_element, processNode_element.
  assert (Hc : forall c, In c cs ->
            Mcp.processNode r (Some t) c = processNode r (Some t) c).
  { intros c Hin. rewrite Forall_forall in IH.
    apply IH; [apply list_elem_of_In; exact Hin | apply Hcs, Hin]. }
  rewrite (map_ext_in _ _ cs Hc).
  replace (flat_map (fun c => if isLi c then [Mcp.processNode r (Some t) c] else []) cs)
    with (flat_map (fun c => if isLi c then [processNode r (Some t) c] else []) cs).
  2:{ clear -Hc. induction cs as [| c cs IHcs]; [reflexivity |].
      cbn [flat_map]. rewrite IHcs by (intros x Hx; apply Hc; right; exact Hx).
      rewrite (Hc c (or_introl eq_refl)). reflexivity. }
  destruct (isHidden a); [reflexivity |].
  destruct (sequence (map (processNode r (Some t)) cs)); [| reflexivity].
  destruct (sequence (flat_map _ cs)); [| reflexivity].
  apply mcp_renderElement_agrees. exact Ht.
Qed.

Lemma convertToMarkdown_without_unwanted_store
    (r : string -> option string) (st : store) (n : node) :
  (forall sel, In sel removeSelectors -> querySelectorAll sel (atTop n) = []) ->
  cloneAndPrune st n = (st, cloneNode (S (Nat.max (maxIdStore st) (maxId n))) n)
  /\ snd (convertToMarkdown r st n) = processNode r None n.
Proof.
  intros Hnone. unfold convertToMarkdown, cloneAndPrune.
  set (base := S (Nat.max (maxIdStore st) (maxId n))).
  assert (Hfold : forall sels, (forall sel, In sel sels -> In sel removeSelectors) ->
            fold_left removeMatching sels (st, cloneNode base n) = (st, cloneNode base n)).
  { induction sels as [| sel sels IH]; intros Hin; [reflexivity |].
    cbn [fold_left]. unfold removeMatching at 2. cbn [snd].
    rewrite (querySelectorAll_cloneNode_nil sel base n)
      by (apply Hnone, Hin; left; reflexivity).
    cbn [fold_left]. apply IH. intros s Hs. apply Hin. right. exact Hs. }
  rewrite (Hfold removeSelectors) by auto. split; [reflexivity |].
  cbn [snd]. apply processNode_cloneNode.
Qed.

(** X20.  The renderer of the MCP server and the one of the content
    script give the same text, or fail alike, on every tree that has no
    [pre], [table] or [img] element; the text of the MCP server is then
    the same text with its runs of new-lines cut to two and trimmed. *)
Theorem renderers_agree_without_pre_table_img
    (r : string -> option string) (n : node) :
  avoidsTags ["pre"; "table"; "img"] n = true ->
  (forall parent, Mcp.processNode r parent n = processNode r parent n)
  /\ (forall st,
        (forall sel, In sel removeSelectors -> querySelectorAll sel (atTop n) = []) ->
        snd (Mcp.convertToMarkdown r st n) =
          match snd (convertToMarkdown r st n) with
          | Some md => Some (Js.trim (Mcp.collapseNewlines md))
          | None => None
          end).
Proof.
  intros Hav. split; [apply mcp_processNode_agrees, Hav |].
  intros st Hnone.
  destruct (convertToMarkdown_without_unwanted_store r st n Hnone) as [Hclone Hconv].
  rewrite Hconv. unfold Mcp.convertToMarkdown. rewrite Hclone. cbn [snd].
  rewrite mcp_processNode_agrees, processNode_cloneNode; [reflexivity |].
  clear -Hav. set (base := S _). clearbody base.
  induction n as [i d | i k d | i t a cs IH] using node_ind; [reflexivity | reflexivity |].
  cbn [cloneNode avoidsTags] in *. apply andb_true_iff in Hav. destruct Hav as [Ht Hcs].
  rewrite Ht. cbn [andb]. rewrite forallb_forall in *. intros c Hc.
  apply in_map_iff in Hc. destruct Hc as (c0 & <- & Hc0).
  rewrite Forall_forall in IH. apply IH; [apply list_elem_of_In; exact Hc0 | apply Hcs, Hc0].
Qed.

Lemma renderers_agree_without_pre_table_img_witness :
  Mcp.processNode (fun h => Some h) None twoItemList =
  processNode (fun h => Some h) None twoItemList.
Proof.
  apply (renderers_agree_without_pre_table_img (fun h => Some h) twoItemList).
  reflexivity.
Defined.

(** ** Children of a list that are not items *)

(** X21.  What stands directly in a [ul] or [ol] without being an [li]
    (text between the items, a stray [div]) is dropped: the list renders
    as it does without that child, provided the child itself renders
    without failure. *)
Theorem list_drops_children_that_are_not_items
    (r : string -> option string) (parent : option string)
    (i : nat) (t : string) (a : attrs) (cs1 cs2 : list node) (c : node) :
  t = "ul" \/ t = "ol" ->
  isLi c = false ->
  processNode r (Some t) c <> None ->
  processNode r parent (Element i t a (cs1 ++ c :: cs2)) =
  processNode r parent (Element i t a (cs1 ++ cs2)).
Proof.
  intros Ht Hli Hc. rewrite !processNode_element.
  destruct (isHidden a); [reflexivity |].
  rewrite !map_app, !flat_map_app, !sequence_app. cbn [map flat_map sequence].
  rewrite Hli. cbn [app].
  destruct (processNode r (Some t) c) as [x |]; [| contradiction].
  destruct (sequence (map (processNode r (Some t)) cs1)) as [p1 |]; [| reflexivity].
  destruct (sequence (map (processNode r (Some t)) cs2)) as [p2 |]; [| reflexivity].
  destruct (sequence (flat_map _ cs1)) as [i1 |]; [| reflexivity].
  destruct (sequence (flat_map _ cs2)) as [i2 |]; [| reflexivity].
  destruct Ht as [-> | ->]; reflexivity.
Qed.

Lemma list_drops_children_that_are_not_items_witness :
  processNode (fun h => Some h) None
    (Element 1 "ul" [] [Element 2 "li" [] [Text 3 "a"]; Text 4 "stray";
                        Element 5 "li" [] [Text 6 "b"]]) =
  processNode (fun h => Some h) None
    (Element 1 "ul" [] [Element 2 "li" [] [Text 3 "a"]; Element 5 "li" [] [Text 6 "b"]]).
Proof.
  apply (list_drops_children_that_are_not_items (fun h => Some h) None 1 "ul" []
           [Element 2 "li" [] [Text 3 "a"]] [Element 5 "li" [] [Text 6 "b"]]
           (Text 4 "stray")).
  - left. reflexivity.
  - reflexivity.
  - discriminate.
Defined.

(** ** Offering the same links again *)

Section Recollect.

Import Harvester.

Variables (U : Harvester.UrlClass) (origin : string) (absolutize : string -> string) (currentUrl : string).

Let normalizedHref (link : node) := normalizeUrl U (hrefOf absolutize link).

Lemma collectLink_unfold st link :
  collectLink U origin absolutize currentUrl st link =
  if refused U origin absolutize currentUrl link then st
  else if decide (normalizedHref link ∈ snd st) then st
  else (fst st ++ [linkRecord U absolutize currentUrl link],
        {[ normalizedHref link ]} ∪ snd st).
Proof.
  unfold collectLink, refused, linkRecord, normalizedHref.
  destruct (String.eqb (hrefOf absolutize link) EmptyString
            || String.eqb (Js.trim (textContent link)) EmptyString
            || (String.length (Js.trim (textContent link)) <? 2)%nat); [reflexivity |].
  cbn [orb].
  destruct (negb (Js.startsWith origin (hrefOf absolutize link))); [reflexivity |].
  cbn [orb].
  destruct (Js.includes "#" (hrefOf absolutize link)
            && String.eqb (normalizeUrl U (hrefOf absolutize link)) currentUrl);
    [reflexivity |].
  cbn [orb]. destruct (isDownload (hrefOf absolutize link)); reflexivity.
Qed.

Lemma collectLink_settled st link :
  refused U origin absolutize currentUrl link = true \/ normalizedHref link ∈ snd st ->
  collectLink U origin absolutize currentUrl st link = st.
Proof.
  intros H. rewrite collectLink_unfold.
  destruct (refused U origin absolutize currentUrl link); [reflexivity |].
  destruct H as [H | H]; [discriminate |].
  destruct (decide _); [reflexivity | contradiction].
Qed.

Lemma collectLink_seen st link x :
  x ∈ snd st -> x ∈ snd (collectLink U origin absolutize currentUrl st link).
Proof.
  intros H. rewrite collectLink_unfold.
  destruct (refused U origin absolutize currentUrl link); [exact H |].
  destruct (decide _); [exact H |]. cbn [snd]. apply elem_of_union_r, H.
Qed.

Lemma collectLink_marks st link :
  refused U origin absolutize currentUrl link = true
  \/ normalizedHref link ∈ snd (collectLink U origin absolutize currentUrl st link).
Proof.
  rewrite collectLink_unfold.
  destruct (refused U origin absolutize currentUrl link); [left; reflexivity | right].
  destruct (decide _) as [Hin | Hnot]; [exact Hin |].
  cbn [snd]. apply elem_of_union_l, elem_of_singleton. reflexivity.
Qed.

Lemma collectLinks_seen links st x :
  x ∈ snd st -> x ∈ snd (collectLinks U origin absolutize links st currentUrl).
Proof.
  unfold collectLinks. revert st. induction links as [| l links IH]; intros st H; [exact H |].
  cbn [fold_left]. apply IH, collectLink_seen, H.
Qed.

Lemma collectLinks_marks links st l :
  In l links ->
  refused U origin absolutize currentUrl l = true
  \/ normalizedHref l ∈ snd (collectLinks U origin absolutize links st currentUrl).
Proof.
  unfold collectLinks. revert st. induction links as [| x links IH]; intros st; [intros [] |].
  cbn [fold_left]. intros [-> | Hin]; [| apply IH, Hin].
  destruct (collectLink_marks st l) as [H | H]; [left; exact H | right].
  apply (collectLinks_seen links). exact H.
Qed.

Lemma collectLinks_settled links st :
  (forall l, In l links ->
             refused U origin absolutize currentUrl l = true \/ normalizedHref l ∈ snd st) ->
  collectLinks U origin absolutize links st currentUrl = st.
Proof.
  unfold collectLinks. induction links as [| l links IH]; intros H; [reflexivity |].
  cbn [fold_left]. rewrite collectLink_settled by (apply H; left; reflexivity).
  apply IH. intros x Hx. apply H. right. exact Hx.
Qed.

End Recollect.

(** X22.  Links that were offered to collectLinks once add nothing when
    they are offered again, alone or among the matches of another
    selector that are all of them: each was either refused for good or has
    its normalized address in the set of seen addresses. *)
Theorem collectLinks_again_adds_nothing
    (U : Harvester.UrlClass) (origin : string) (absolutize : string -> string) (currentUrl : string)
    (links again : list node) (st : Harvester.harvest) :
  (forall l, In l again -> In l links) ->
  Harvester.collectLinks U origin absolutize again
    (Harvester.collectLinks U origin absolutize links st currentUrl) currentUrl
  = Harvester.collectLinks U origin absolutize links st currentUrl.
Proof.
  intros Hsub. apply collectLinks_settled.
  intros l Hl. apply collectLinks_marks, Hsub, Hl.
Qed.

Lemma collectLinks_again_adds_nothing_witness :
  Harvester.collectLinks sampleUrls "https://x.com" (fun h => h)
    [anchor 20 "https://x.com/b" "Page b"]
    (Harvester.collectLinks sampleUrls "https://x.com" (fun h => h)
       [anchor 10 "https://x.com/a" "Page a"; anchor 20 "https://x.com/b" "Page b"]
       ([], ∅) "https://x.com/start") "https://x.com/start"
  = Harvester.collectLinks sampleUrls "https://x.com" (fun h => h)
      [anchor 10 "https://x.com/a" "Page a"; anchor 20 "https://x.com/b" "Page b"]
      ([], ∅) "https://x.com/start".
Proof.
  apply (collectLinks_again_adds_nothing sampleUrls "https://x.com" (fun h => h) "https://x.com/start").
  intros l [<- | []]. right. left. reflexivity.
Defined.

Lemma extractDomainName_shape_witness :
  Popup.extractDomainName (fun _ => None) "not an address" = "extracted".
Proof.
  apply (extractDomainName_shape (fun _ => None) "not an address"). reflexivity.
Defined.

Example extractDomainName_docs_host :
  Popup.extractDomainName (fun _ => Some "docs.Stripe.com") "https://docs.Stripe.com/api" = "stripe".
Proof. reflexivity. Qed.

Example sanitizeFilename_title :
  Popup.sanitizeFilename "  Getting Started: v2!  " = "getting_started_v2".
Proof. reflexivity. Qed.

(** ** Comments, processing instructions and CDATA sections *)

Section WithoutKinds.

Variable drop : otherKind -> bool.











Section TextKept.

Hypothesis cdataKept : drop CDataSectionNode = false.







End TextKept.






End WithoutKinds.



